(** * react-query-filters-manager: the [useFilters] hook and its collaborators

    A shallow embedding of the hook of [src/filters_manager.tsx] and of its
    sibling [filters_manager.service.ts] (string keys, query-string codec),
    together with small executable models of the three collaborators the hook
    composes: the request cache (@tanstack/react-query), the router
    (next/router) and the query-string codec.

    Layout: definitions first (JS values, codec, cache, hook variants), then
    the lemmas and the theorems about them. *)

From Stdlib Require Import ZArith String Ascii List Lia.
From stdpp Require Import base option countable strings list sorting pretty gmap.

Set Default Proof Using "Type*".
Local Open Scope string_scope.

(** ** JavaScript values *)

Module Js.

(** A value of TypeScript type [A | null | undefined]. *)
Inductive Nullable (A : Type) : Type :=
| Undefined
| Null
| Defined (a : A).
Arguments Undefined {A}.
Arguments Null {A}.
Arguments Defined {A} a.

#[global] Instance Nullable_eq_dec `{EqDecision A} : EqDecision (Nullable A).
Proof. solve_decision. Defined.

(** [x ?? d] *)
Definition coalesce {A} (x : Nullable A) (d : A) : A :=
  match x with
  | Defined a => a
  | _ => d
  end.

(** [!x] for [x] an object, [null] or [undefined]: objects are truthy. *)
Definition not {A} (x : Nullable A) : bool :=
  match x with
  | Defined _ => false
  | _ => true
  end.

(** [typeof x !== 'undefined'] *)
Definition isDefined {A} (x : Nullable A) : bool :=
  match x with
  | Undefined => false
  | _ => true
  end.

Definition map {A B} (f : A → B) (x : Nullable A) : Nullable B :=
  match x with
  | Undefined => Undefined
  | Null => Null
  | Defined a => Defined (f a)
  end.

(** The settled state of a promise. *)
Inductive Settled (E A : Type) : Type :=
| Fulfilled (a : A)
| Rejected (e : E).
Arguments Fulfilled {E A} a.
Arguments Rejected {E A} e.

(** A function value: React compares effect dependencies with [Object.is],
    which on functions is reference identity, carried here by [fn_id]. *)
Record Closure (A B : Type) : Type := mkClosure {
  fn_id : nat;
  call : A → B;
}.
Arguments mkClosure {A B} fn_id call.
Arguments fn_id {A B} c.
Arguments call {A B} c a.

(** A number in a filter object: one of JavaScript's safe integers, on which
    [String(n)] is the decimal numeral.  Fractions, and the numbers from
    [2^53] on, which are rounded and from [1e21] on printed with an exponent,
    are not represented. *)
Definition SafeInteger : Type := { n : Z | Is_true (Z.abs n <? 2 ^ 53)%Z }.

Definition int (n : Z) (safe : Is_true (Z.abs n <? 2 ^ 53)%Z) : SafeInteger := n ↾ safe.

#[global] Instance SafeInteger_eq_dec : EqDecision SafeInteger.
Proof. unfold SafeInteger. apply _. Defined.

#[global] Instance SafeInteger_countable : Countable SafeInteger.
Proof. unfold SafeInteger. apply _. Defined.

(** Scalars found in the fields of a filter object or of a parsed query. *)
Inductive Scalar : Type :=
| VUndefined
| VNull
| VStr (s : string)
| VNum (n : SafeInteger)
| VBool (b : bool).

(** A field holds a scalar or a sequence of scalars. *)
Inductive Field : Type :=
| One (x : Scalar)
| Many (xs : list Scalar).

#[global] Instance Scalar_eq_dec : EqDecision Scalar.
Proof. solve_decision. Defined.

#[global] Instance Field_eq_dec : EqDecision Field.
Proof. solve_decision. Defined.

#[global] Instance Scalar_countable : Countable Scalar.
Proof.
  refine (inj_countable'
    (λ x, match x with
          | VUndefined => inl (inl ())
          | VNull => inl (inr ())
          | VStr s => inr (inl s)
          | VNum n => inr (inr (inl n))
          | VBool b => inr (inr (inr b))
          end)
    (λ y, match y with
          | inl (inl _) => VUndefined
          | inl (inr _) => VNull
          | inr (inl s) => VStr s
          | inr (inr (inl n)) => VNum n
          | inr (inr (inr b)) => VBool b
          end) _).
  by intros [].
Defined.

#[global] Instance Field_countable : Countable Field.
Proof.
  refine (inj_countable'
    (λ f, match f with One x => inl x | Many xs => inr xs end)
    (λ y, match y with inl x => One x | inr xs => Many xs end) _).
  by intros [].
Defined.

End Js.
Export Js.

(** A plain object with scalar or sequence fields: filter objects handed to
    the codec, and the [ParsedQuery] / [ParsedUrlQuery] mappings. *)
Abbreviation Obj := (gmap string Field).

(** ** The query-string codec

    The hook of [filters_manager.service.ts] imports [stringify] and
    [parseUrl] from the query-string package, whose code is not part of this
    repository. *)

Module QueryString.

Inductive ArrayFormat : Type :=
| FormatNone
| FormatBracket.

Record Options : Type := mkOptions {
  arrayFormat : ArrayFormat;
  skipNull : bool;
  skipEmptyString : bool;
}.

(** The package's defaults, used when [parseUrl] is called with a URL only. *)
Definition defaultOptions : Options :=
  {| arrayFormat := FormatNone; skipNull := false; skipEmptyString := false |}.

(** *** Percent-encoding, on the UTF-8 bytes of a string *)

Definition isUnreserved (c : ascii) : bool :=
  let n := nat_of_ascii c in
  ((48 <=? n)%nat && (n <=? 57)%nat) || ((65 <=? n)%nat && (n <=? 90)%nat)
  || ((97 <=? n)%nat && (n <=? 122)%nat)
  || Ascii.eqb c "-" || Ascii.eqb c "_" || Ascii.eqb c "." || Ascii.eqb c "~".

Definition hexDigit (n : nat) : ascii :=
  if (n <? 10)%nat then ascii_of_nat (48 + n) else ascii_of_nat (55 + n).

Definition hexValue (c : ascii) : option nat :=
  let n := nat_of_ascii c in
  if (48 <=? n)%nat && (n <=? 57)%nat then Some (n - 48)
  else if (65 <=? n)%nat && (n <=? 70)%nat then Some (n - 55)
  else if (97 <=? n)%nat && (n <=? 102)%nat then Some (n - 87)
  else None.

Definition encodeChar (c : ascii) : string :=
  if isUnreserved c then String c ""
  else
    let n := nat_of_ascii c in
    String "%" (String (hexDigit (n / 16)) (String (hexDigit (n mod 16)) "")).

(** Modelled from the spec: the codec's [encode] (strict URI encoding), which
    escapes every byte but letters, digits and [-_.~]. *)
Fixpoint encode (s : string) : string :=
  match s with
  | "" => ""
  | String c s' => encodeChar c ++ encode s'
  end.

(** Modelled from the spec: the codec's [decode]; a [%] that does not start
    an escape is kept. *)
Fixpoint decode (s : string) : string :=
  match s with
  | "" => ""
  | String c s' =>
      match s' with
      | String h (String l rest) =>
          match (if Ascii.eqb c "%" then hexValue h else None), hexValue l with
          | Some a, Some b => String (ascii_of_nat (16 * a + b)) (decode rest)
          | _, _ => String c (decode s')
          end
      | _ => String c (decode s')
      end
  end.

(** *** String helpers *)

(** [s.split(c)], as its first piece and the remaining ones. *)
Fixpoint splitPieces (c : ascii) (s : string) : string * list string :=
  match s with
  | "" => ("", [])
  | String a s' =>
      let '(x, xs) := splitPieces c s' in
      if Ascii.eqb a c then ("", x :: xs) else (String a x, xs)
  end.

Definition split (c : ascii) (s : string) : list string :=
  let '(x, xs) := splitPieces c s in x :: xs.

(** [splitOnFirst(s, c)]: the text before the first [c], and the text after
    it when there is one. *)
Fixpoint splitOnFirst (c : ascii) (s : string) : string * option string :=
  match s with
  | "" => ("", None)
  | String a s' =>
      if Ascii.eqb a c then ("", Some s')
      else let '(k, v) := splitOnFirst c s' in (String a k, v)
  end.

(** [s.replace(/\+/g, ' ')] *)
Fixpoint replacePlus (s : string) : string :=
  match s with
  | "" => ""
  | String a s' => String (if Ascii.eqb a "+" then " "%char else a) (replacePlus s')
  end.

(** [s.trim()], on the UTF-8 bytes of [s].  The white space and the line
    terminators of JavaScript are TAB, LF, VT, FF, CR and SP, which are one
    byte each, U+00A0, which is [C2 A0], and U+1680, U+2000 to U+200A,
    U+2028, U+2029, U+202F, U+205F, U+3000 and U+FEFF, which are three bytes
    each. *)
Definition isSpace1 (c : ascii) : bool :=
  let n := nat_of_ascii c in
  ((9 <=? n)%nat && (n <=? 13)%nat) || (n =? 32)%nat.

Definition isSpace2 (c d : ascii) : bool :=
  (nat_of_ascii c =? 194)%nat && (nat_of_ascii d =? 160)%nat.

Definition isSpace3 (c d e : ascii) : bool :=
  let '(c, d, e) := (nat_of_ascii c, nat_of_ascii d, nat_of_ascii e) in
  ((c =? 225)%nat && (d =? 154)%nat && (e =? 128)%nat)
  || ((c =? 226)%nat && (d =? 128)%nat
      && (((128 <=? e)%nat && (e <=? 138)%nat) || (e =? 168)%nat || (e =? 169)%nat
          || (e =? 175)%nat))
  || ((c =? 226)%nat && (d =? 129)%nat && (e =? 159)%nat)
  || ((c =? 227)%nat && (d =? 128)%nat && (e =? 128)%nat)
  || ((c =? 239)%nat && (d =? 187)%nat && (e =? 191)%nat).

Fixpoint trimStart (s : string) : string :=
  match s with
  | "" => ""
  | String c s1 =>
      if isSpace1 c then trimStart s1
      else
        match s1 with
        | String d s2 =>
            if isSpace2 c d then trimStart s2
            else
              match s2 with
              | String e s3 => if isSpace3 c d e then trimStart s3 else s
              | "" => s
              end
        | "" => s
        end
  end.

(** The text up to the point from which only white space follows. *)
Fixpoint trimEnd (s : string) : string :=
  match s with
  | "" => ""
  | String c s' => if bool_decide (trimStart s = "") then "" else String c (trimEnd s')
  end.

Definition trim (s : string) : string := trimEnd (trimStart s).

(** [s.replace(/^[?#&]/, '')] *)
Definition dropLeading (s : string) : string :=
  match s with
  | String c s' =>
      if Ascii.eqb c "?" || Ascii.eqb c "#" || Ascii.eqb c "&" then s' else s
  | "" => ""
  end.

(** [/(\[])$/.exec(key)] with [key.replace(/\[]$/, '')]: the key without its
    trailing brackets, when it has them. *)
Fixpoint stripBrackets (key : string) : option string :=
  match key with
  | "" => None
  | String a rest =>
      if bool_decide (key = "[]") then Some ""
      else String a <$> stripBrackets rest
  end.

(** [String(x)]; a safe integer is printed as its decimal numeral. *)
Definition toString (x : Scalar) : string :=
  match x with
  | VUndefined => "undefined"
  | VNull => "null"
  | VStr s => s
  | VNum n => pretty (`n)
  | VBool true => "true"
  | VBool false => "false"
  end.

(** *** stringify *)

Definition isNullOrUndefined (value : Field) : bool :=
  match value with
  | One VUndefined | One VNull => true
  | _ => false
  end.

Definition shouldFilter (options : Options) (value : Field) : bool :=
  (skipNull options && isNullOrUndefined value)
  || (skipEmptyString options && bool_decide (value = One (VStr ""))).

(** The reducer [encoderForArrayFormat(options)(key)], applied to one element
    of a sequence. *)
Definition encoderForArrayFormat (options : Options) (key : string)
    (result : list string) (value : Scalar) : list string :=
  match value with
  | VUndefined => result
  | VNull =>
      if skipNull options then result
      else
        match arrayFormat options with
        | FormatBracket => result ++ [encode key ++ "[]"]
        | FormatNone => result ++ [encode key]
        end
  | _ =>
      if skipEmptyString options && bool_decide (value = VStr "") then result
      else
        match arrayFormat options with
        | FormatBracket => result ++ [encode key ++ "[]=" ++ encode (toString value)]
        | FormatNone => result ++ [encode key ++ "=" ++ encode (toString value)]
        end
  end.

Definition stringifyField (options : Options) (key : string) (value : Field) : string :=
  match value with
  | One VUndefined => ""
  | One VNull => encode key
  | Many xs => String.concat "&" (fold_left (encoderForArrayFormat options key) xs [])
  | One x => encode key ++ "=" ++ encode (toString x)
  end.

Definition keyLe (a b : string * Field) : Prop := String.leb a.1 b.1 = true.

#[global] Instance keyLe_dec a b : Decision (keyLe a b).
Proof. unfold keyLe. apply _. Defined.

(** Modelled from the spec: the codec's [stringify(object, options)]: filtered
    fields, in key order, joined with [&]. *)
Definition stringify (object : Obj) (options : Options) : string :=
  let objectCopy := filter (λ kv, shouldFilter options kv.2 = false) object in
  let entries := merge_sort keyLe (map_to_list objectCopy) in
  String.concat "&"
    (filter (λ x, x ≠ "") (List.map (λ kv, stringifyField options kv.1 kv.2) entries)).

(** *** parse *)

(** [[].concat(old, value)] *)
Definition concatField (old : Field) (value : Scalar) : Field :=
  match old with
  | One x => Many [x; value]
  | Many xs => Many (xs ++ [value])
  end.

Definition parserForArrayFormat (options : Options) (key : string) (value : Scalar)
    (accumulator : Obj) : Obj :=
  match arrayFormat options with
  | FormatBracket =>
      match stripBrackets key with
      | None => <[key := One value]> accumulator
      | Some key' =>
          match accumulator !! key' with
          | None => <[key' := Many [value]]> accumulator
          | Some old => <[key' := concatField old value]> accumulator
          end
      end
  | FormatNone =>
      match accumulator !! key with
      | None => <[key := One value]> accumulator
      | Some old => <[key := concatField old value]> accumulator
      end
  end.

Definition parseParameter (options : Options) (accumulator : Obj) (parameter : string) : Obj :=
  if bool_decide (parameter = "") then accumulator
  else
    let '(key, value) := splitOnFirst "=" (replacePlus parameter) in
    let value := match value with
                 | None => VNull
                 | Some v => VStr (decode v)
                 end in
    parserForArrayFormat options (decode key) value accumulator.

(** Modelled from the spec: the codec's [parse(query, options)]: the query
    is trimmed, one leading [?], [#] or [&] is removed, and the parameters
    between the [&] are read one by one; numbers and booleans are not parsed
    back (the hook's configuration sets neither [parseNumbers] nor
    [parseBooleans]). *)
Definition parse (query : string) (options : Options) : Obj :=
  fold_left (parseParameter options) (split "&" (dropLeading (trim query))) ∅.

(** [extract(url)]: the text between the first [?] and the hash. *)
Definition extract (input : string) : string :=
  match splitOnFirst "?" (splitOnFirst "#" input).1 with
  | (_, Some q) => q
  | (_, None) => ""
  end.

Record ParsedUrl : Type := mkParsedUrl {
  url : string;
  query : Obj;
}.

(** Modelled from the spec: the codec's [parseUrl(url, options)]. *)
Definition parseUrl (input : string) (options : Options) : ParsedUrl :=
  {| url := (splitOnFirst "?" (splitOnFirst "#" input).1).1;
     query := parse (extract input) options |}.

(** *** What a round trip through the codec gives back *)

(** The fields the encoding policy omits, in the spec's words: a field whose
    value is absent or empty. *)
Definition isEmptyField (value : Field) : bool :=
  match value with
  | One VUndefined | One VNull => true
  | One (VStr s) => bool_decide (s = "")
  | One _ => false
  | Many xs => bool_decide (xs = [])
  end.

(** [V] restricted to its non-empty, non-null fields. *)
Definition restrict (object : Obj) : Obj :=
  filter (λ kv, isEmptyField kv.2 = false) object.

(** A non-empty string. *)
Definition isText (x : Scalar) : bool :=
  match x with
  | VStr s => negb (bool_decide (s = ""))
  | _ => false
  end.

(** A field that is a string, absent, or a sequence of non-empty strings. *)
Definition textual (value : Field) : bool :=
  match value with
  | One VUndefined | One VNull | One (VStr _) => true
  | One _ => false
  | Many xs => forallb isText xs
  end.

(** The text a scalar comes back as, when it is not omitted. *)
Definition echoScalar (x : Scalar) : option string :=
  match x with
  | VUndefined | VNull => None
  | VStr s => if bool_decide (s = "") then None else Some s
  | _ => Some (toString x)
  end.

(** The field a field comes back as, when it is not omitted. *)
Definition echoField (value : Field) : option Field :=
  match value with
  | One x => (λ s, One (VStr s)) <$> echoScalar x
  | Many xs =>
      match omap echoScalar xs with
      | [] => None
      | ss => Some (Many (VStr <$> ss))
      end
  end.

Definition echo (object : Obj) : Obj := omap echoField object.

(** The parameter of one element of the sequence [key], in bracket
    notation. *)
Definition bracketParam (key s : string) : string :=
  encode key ++ "[]=" ++ encode s.

(** The parse of what one field was encoded as. *)
Definition fieldStep (options : Options) (accumulator : Obj) (kv : string * Field) : Obj :=
  fold_left (parseParameter options) (split "&" (stringifyField options kv.1 kv.2))
    accumulator.

Fixpoint allChars (P : ascii → bool) (s : string) : bool :=
  match s with
  | "" => true
  | String c s' => P c && allChars P s'
  end.

(** The bytes the encoder emits. *)
Definition isSafe (c : ascii) : bool := isUnreserved c || Ascii.eqb c "%".

Definition isNot (d c : ascii) : bool := negb (Ascii.eqb c d).

(** The bytes of an encoded query: those of the encoder and the
    punctuation of the parameters. *)
Definition isQueryChar (c : ascii) : bool :=
  isSafe c || Ascii.eqb c "=" || Ascii.eqb c "[" || Ascii.eqb c "]" || Ascii.eqb c "&".

(** The texts that do not start with a [&]. *)
Definition startsField (s : string) : Prop :=
  ∃ c t, s = String c t ∧ Ascii.eqb c "&" = false.

End QueryString.

(** ** The request cache (@tanstack/react-query, v4)

    Only the part of the collaborator the hook relies on: queries stored
    under their key, created with optional initial data, fetched when an
    observer arrives and the data is stale, settled, and invalidated by key
    prefix, which refetches the queries that have observers; mutations,
    retried as the client's defaults say.  The queries take the library's
    defaults where the hook gives no option ([staleTime] 0, fetch on mount).
    The outcome of a fetch is the one of the query function on the store at
    the time the fetch starts, so that the retries of a failed fetch end as
    its first attempt did and are not told apart; garbage collection, focus
    and interval refetches are left out. *)

Module ReactQuery.

(** Primitive key segments: the segments of a [filtersKey] and the literal
    tags the hook appends. *)
Inductive Prim : Type :=
| PStr (s : string)
| PNum (n : Z)
| PBool (b : bool).

#[global] Instance Prim_eq_dec : EqDecision Prim.
Proof. solve_decision. Defined.

#[global] Instance Prim_countable : Countable Prim.
Proof.
  refine (inj_countable'
    (λ p, match p with
          | PStr s => inl s
          | PNum n => inr (inl n)
          | PBool b => inr (inr b)
          end)
    (λ y, match y with
          | inl s => PStr s
          | inr (inl n) => PNum n
          | inr (inr b) => PBool b
          end) _).
  by intros [].
Defined.

(** A segment of a query key: a primitive, or a filter value.  Keys are
    compared through their JSON hash, in which an [undefined] element reads
    as [null]: both are [SVal None]. *)
Inductive Seg (Val : Type) : Type :=
| SPrim (p : Prim)
| SVal (v : option Val).
Arguments SPrim {Val} p.
Arguments SVal {Val} v.

#[global] Instance Seg_eq_dec `{EqDecision Val} : EqDecision (Seg Val).
Proof. solve_decision. Defined.

#[global] Instance Seg_countable `{Countable Val} : Countable (Seg Val).
Proof.
  refine (inj_countable'
    (λ s, match s with SPrim p => inl p | SVal v => inr v end)
    (λ y, match y with inl p => SPrim p | inr v => SVal v end) _).
  by intros [].
Defined.

Abbreviation QueryKey Val := (list (Seg Val)).

Definition segOfData {Val} (data : Nullable Val) : Seg Val :=
  match data with
  | Defined v => SVal (Some v)
  | _ => SVal None
  end.

Inductive QueryStatus : Type :=
| Loading
| Error
| Success.

Inductive QueryError (Err : Type) : Type :=
| DataUndefined
| MissingQueryFn
| Thrown (e : Err).
Arguments DataUndefined {Err}.
Arguments MissingQueryFn {Err}.
Arguments Thrown {Err} e.

(** A [staleTime]: milliseconds, or [Infinity]. *)
Inductive Duration : Type :=
| Millis (n : nat)
| Infinity.

(** The state of one cached query: the data with the time it is of (none
    while there is no data), the status, the settled value of the fetch in
    flight when there is one, and the query function of the options the
    query was last given. *)
Record Query (Val Err Store : Type) : Type := mkQuery {
  state_data : Nullable Val;
  dataUpdatedAt : option nat;
  state_status : QueryStatus;
  state_error : option (QueryError Err);
  isInvalidated : bool;
  promise : option (Settled Err (Nullable Val));
  queryFn : option (Store → Settled Err (Nullable Val));
}.
Arguments mkQuery {Val Err Store}.
Arguments state_data {Val Err Store} _.
Arguments dataUpdatedAt {Val Err Store} _.
Arguments state_status {Val Err Store} _.
Arguments state_error {Val Err Store} _.
Arguments isInvalidated {Val Err Store} _.
Arguments promise {Val Err Store} _.
Arguments queryFn {Val Err Store} _.

(** What [useQuery] returns to the component. *)
Record QueryResult (Val Err : Type) : Type := mkQueryResult {
  data : Nullable Val;
  status : QueryStatus;
  error : option (QueryError Err);
}.
Arguments mkQueryResult {Val Err}.
Arguments data {Val Err} _.
Arguments status {Val Err} _.
Arguments error {Val Err} _.

Inductive MutationStatus : Type :=
| MutationError
| MutationSuccess.

(** What a settled [mutate] leaves in the mutation handle. *)
Record MutationResult (Val Err : Type) : Type := mkMutationResult {
  mutation_status : MutationStatus;
  mutation_data : Nullable Val;
  mutation_error : option Err;
}.
Arguments mkMutationResult {Val Err}.
Arguments mutation_status {Val Err} _.
Arguments mutation_data {Val Err} _.
Arguments mutation_error {Val Err} _.

(** The options of [useQuery] a caller of the hook can pass through
    [valuesOptions] and that bear on what is modelled here; each is optional.
    The other options (callbacks, placeholder data, refetch triggers, retry,
    suspense) are taken at their defaults. *)
Record UseQueryOptions (Val : Type) : Type := mkUseQueryOptions {
  enabled : option bool;
  staleTime : option Duration;
  select : option (Nullable Val → Nullable Val);
}.
Arguments mkUseQueryOptions {Val}.
Arguments enabled {Val} _.
Arguments staleTime {Val} _.
Arguments select {Val} _.

(** The options an observer is given in one render. *)
Record ObserverOptions (Val Err Store : Type) : Type := mkObserverOptions {
  opt_queryFn : Store → Settled Err (Nullable Val);
  opt_initialData : Nullable Val;
  opt_select : Nullable Val → Nullable Val;
  opt_enabled : bool;
  opt_staleTime : Duration;
}.
Arguments mkObserverOptions {Val Err Store}.
Arguments opt_queryFn {Val Err Store} _.
Arguments opt_initialData {Val Err Store} _.
Arguments opt_select {Val Err Store} _.
Arguments opt_enabled {Val Err Store} _.
Arguments opt_staleTime {Val Err Store} _.

Section Cache.
Context {Val Err Store : Type} `{Countable Val}.

(** [partialMatchKey(queryKey, filterKey)] for a filter key of primitives:
    every segment of the filter key is strictly equal to the segment of the
    query key at the same index. *)
Fixpoint partialMatchKey (queryKey : QueryKey Val) (filterKey : list Prim)
    {struct filterKey} : bool :=
  match filterKey, queryKey with
  | [], _ => true
  | p :: filterKey', SPrim p' :: queryKey' =>
      bool_decide (p' = p) && partialMatchKey queryKey' filterKey'
  | _ :: _, _ => false
  end.

(** A query is created with [initialData()]; it has data, of the time of its
    creation and with the status [success], unless that is [undefined]. *)
Definition buildQuery (now : nat) (initialData : Nullable Val)
    (fn : option (Store → Settled Err (Nullable Val))) : Query Val Err Store :=
  {| state_data := initialData;
     dataUpdatedAt := if isDefined initialData then Some now else None;
     state_status := if isDefined initialData then Success else Loading;
     state_error := None;
     isInvalidated := false;
     promise := None;
     queryFn := fn |}.

Definition invalidate (q : Query Val Err Store) : Query Val Err Store :=
  {| state_data := state_data q;
     dataUpdatedAt := dataUpdatedAt q;
     state_status := state_status q;
     state_error := state_error q;
     isInvalidated := true;
     promise := promise q;
     queryFn := queryFn q |}.

(** A query without a query function takes the one of the observer that
    comes to it. *)
Definition adopt (fn : Store → Settled Err (Nullable Val)) (q : Query Val Err Store)
    : Query Val Err Store :=
  {| state_data := state_data q;
     dataUpdatedAt := dataUpdatedAt q;
     state_status := state_status q;
     state_error := state_error q;
     isInvalidated := isInvalidated q;
     promise := promise q;
     queryFn := Some (default fn (queryFn q)) |}.

(** [query.fetch(options)]: the query takes the options, [queryFn] is called
    on the store and its promise settles later; a query without data goes
    back to [loading]. *)
Definition startFetch (fn : Store → Settled Err (Nullable Val)) (st : Store)
    (q : Query Val Err Store) : Query Val Err Store :=
  {| state_data := state_data q;
     dataUpdatedAt := dataUpdatedAt q;
     state_status := match dataUpdatedAt q with Some _ => state_status q | None => Loading end;
     state_error := match dataUpdatedAt q with Some _ => state_error q | None => None end;
     isInvalidated := isInvalidated q;
     promise := Some (fn st);
     queryFn := Some fn |}.

(** The fetch in flight settles, at the time [now].  A query function that
    resolves with [undefined] is an error in v4. *)
Definition settle (now : nat) (q : Query Val Err Store) : Query Val Err Store :=
  match promise q with
  | None => q
  | Some (Fulfilled Undefined) =>
      {| state_data := state_data q;
         dataUpdatedAt := dataUpdatedAt q;
         state_status := Error;
         state_error := Some DataUndefined;
         isInvalidated := isInvalidated q;
         promise := None;
         queryFn := queryFn q |}
  | Some (Fulfilled v) =>
      {| state_data := v;
         dataUpdatedAt := Some now;
         state_status := Success;
         state_error := None;
         isInvalidated := false;
         promise := None;
         queryFn := queryFn q |}
  | Some (Rejected e) =>
      {| state_data := state_data q;
         dataUpdatedAt := dataUpdatedAt q;
         state_status := Error;
         state_error := Some (Thrown e);
         isInvalidated := isInvalidated q;
         promise := None;
         queryFn := queryFn q |}
  end.

(** A fetch without a query function fails. *)
Definition failMissing (q : Query Val Err Store) : Query Val Err Store :=
  {| state_data := state_data q;
     dataUpdatedAt := dataUpdatedAt q;
     state_status := Error;
     state_error := Some MissingQueryFn;
     isInvalidated := isInvalidated q;
     promise := None;
     queryFn := None |}.

(** [await query.fetch(undefined, {cancelRefetch: true})], as
    [refetchQueries] does it: a fetch in flight of a query without data is
    awaited; otherwise a fetch in flight is dropped and a fetch with the
    query's own function is started and awaited.  The flag tells whether a
    fetch was started. *)
Definition refetch (now : nat) (st : Store) (q : Query Val Err Store)
    : Query Val Err Store * bool :=
  if bool_decide (is_Some (promise q)) && negb (bool_decide (is_Some (dataUpdatedAt q)))
  then (settle now q, false)
  else
    match queryFn q with
    | Some fn => (settle now (startFetch fn st q), true)
    | None => (failMissing q, true)
    end.

(** [queryClient.invalidateQueries(filterKey)] on the cache, awaited: every
    query whose key the filter key matches is marked invalid, and those of
    them that have an observer are fetched again. *)
Definition invalidateQueries (filterKey : list Prim) (active : QueryKey Val → bool)
    (now : nat) (st : Store) (cache : gmap (QueryKey Val) (Query Val Err Store))
    : gmap (QueryKey Val) (Query Val Err Store) :=
  map_imap
    (λ key q, Some (if partialMatchKey key filterKey
                    then if active key then (refetch now st (invalidate q)).1
                         else invalidate q
                    else q))
    cache.

(** The keys under which [invalidateQueries] starts a fetch. *)
Definition refetched (filterKey : list Prim) (active : QueryKey Val → bool)
    (now : nat) (st : Store) (cache : gmap (QueryKey Val) (Query Val Err Store))
    : list (QueryKey Val) :=
  omap (λ kq : QueryKey Val * Query Val Err Store,
          if partialMatchKey kq.1 filterKey && active kq.1
             && (refetch now st (invalidate kq.2)).2
          then Some kq.1 else None)
    (map_to_list cache).

(** [query.isStaleByTime(staleTime)] *)
Definition isStaleByTime (now : nat) (staleTime : Duration) (q : Query Val Err Store) : bool :=
  isInvalidated q
  || match dataUpdatedAt q, staleTime with
     | None, _ => true
     | Some _, Infinity => false
     | Some updatedAt, Millis n => (updatedAt + n <=? now)%nat
     end.

(** An observer fetches when it comes to a query (on mount, or with a new
    key) or is enabled again, the query being stale, unless it is disabled
    or a fetch is already in flight. *)
Definition shouldFetch (observed : option (QueryKey Val)) (wasEnabled : bool)
    (key : QueryKey Val) (enabled : bool) (staleTime : Duration) (now : nat)
    (q : Query Val Err Store) : bool :=
  enabled
  && (negb (bool_decide (observed = Some key)) || negb wasEnabled)
  && isStaleByTime now staleTime q
  && negb (bool_decide (is_Some (promise q))).

(** The observer's result: [select] is applied to the cached data when there
    is some. *)
Definition createResult (select : Nullable Val → Nullable Val) (q : Query Val Err Store)
    : QueryResult Val Err :=
  {| data := if isDefined (state_data q) then select (state_data q) else Undefined;
     status := state_status q;
     error := state_error q |}.

(** The enabled observers of each query, counted: an observer leaves the
    query it was on and comes to the one of its key. *)
Definition removeObserver (observed : option (QueryKey Val)) (wasEnabled : bool)
    (observers : gmap (QueryKey Val) nat) : gmap (QueryKey Val) nat :=
  match observed with
  | Some key => if wasEnabled then alter Nat.pred key observers else observers
  | None => observers
  end.

Definition addObserver (key : QueryKey Val) (enabled : bool)
    (observers : gmap (QueryKey Val) nat) : gmap (QueryKey Val) nat :=
  if enabled then <[key := S (default 0%nat (observers !! key))]> observers else observers.

Definition subscribe (observed : option (QueryKey Val)) (wasEnabled : bool)
    (key : QueryKey Val) (enabled : bool) (observers : gmap (QueryKey Val) nat)
    : gmap (QueryKey Val) nat :=
  if bool_decide (observed = Some key) && Bool.eqb wasEnabled enabled then observers
  else addObserver key enabled (removeObserver observed wasEnabled observers).

(** [query.isActive()] *)
Definition isActive (observers : gmap (QueryKey Val) nat) (key : QueryKey Val) : bool :=
  bool_decide (0 < default 0 (observers !! key))%nat.

(** The invariant of the cache: a query with the status [success] has
    data. *)
Definition successHasData (cache : gmap (QueryKey Val) (Query Val Err Store)) : Prop :=
  ∀ key q, cache !! key = Some q → state_status q = Success → isDefined (state_data q) = true.

(** The [retry] default of mutations in a client constructed without
    options. *)
Definition defaultMutationRetry : nat := 0.

End Cache.

End ReactQuery.

(** ** The router (next/router) and the navigable location *)

Module Next.

(** The first argument of [router.replace]: a URL, or a URL object. *)
Inductive Url (Val : Type) : Type :=
| UrlString (href : string)
| UrlObject (pathname : string) (query : Nullable Val).
Arguments UrlString {Val} href.
Arguments UrlObject {Val} pathname query.

(** The fields of the router the hook reads. *)
Record Router : Type := mkRouter {
  isReady : bool;
  asPath : string;
  query : Obj;
}.

(** [.] of a regular expression matches any character but a line
    terminator: LF, CR, U+2028 and U+2029, the last two being the bytes
    [E2 80 A8] and [E2 80 A9] of a string in UTF-8.  Whether [s] starts with
    one: *)
Definition atLineTerminator (s : string) : bool :=
  match s with
  | String c s' =>
      Ascii.eqb c "010" || Ascii.eqb c "013"
      || (Ascii.eqb c "226"
          && match s' with
             | String d (String e _) =>
                 Ascii.eqb d "128" && (Ascii.eqb e "168" || Ascii.eqb e "169")
             | _ => false
             end)
  | "" => false
  end.

(** What is left of [s] from its first line terminator on. *)
Fixpoint dropLine (s : string) : string :=
  match s with
  | "" => ""
  | String c s' => if atLineTerminator s then s else dropLine s'
  end.

(** Whether [s] has no line terminator. *)
Fixpoint lineFree (s : string) : bool :=
  match s with
  | "" => true
  | String c s' => negb (atLineTerminator s) && lineFree s'
  end.

(** [s.replace(/\?.+/, '')]: the first [?] that is followed by a character
    other than a line terminator is removed, with the rest of its line. *)
Fixpoint stripQuery (s : string) : string :=
  match s with
  | "" => ""
  | String c s' =>
      match s' with
      | String d _ =>
          if Ascii.eqb c "?" && negb (atLineTerminator s') then dropLine s'
          else String c (stripQuery s')
      | "" => String c ""
      end
  end.

End Next.

(** ** The world the hook acts on

    The shared cache client (its queries, their observers, its default for
    the retries of a mutation), the clock, the caller's persistent store, the
    navigable location, and the trace of the calls made to the
    collaborators. *)

Module Runtime.
Import ReactQuery Next.

Inductive Event (Val : Type) : Type :=
| EvPersist (data : Val)
| EvInvalidate (filterKey : list Prim)
| EvFetch (key : QueryKey Val)
| EvReplace (url : Url Val) (as_ : option (Url Val)) (scroll : option bool)
| EvQuerySetter (data : Nullable Val).
Arguments EvPersist {Val} data.
Arguments EvInvalidate {Val} filterKey.
Arguments EvFetch {Val} key.
Arguments EvReplace {Val} url as_ scroll.
Arguments EvQuerySetter {Val} data.

Record World (Val Err Store : Type) `{Countable Val} : Type := mkWorld {
  cache : gmap (QueryKey Val) (Query Val Err Store);
  observers : gmap (QueryKey Val) nat;
  mutationRetry : nat;
  now : nat;
  store : Store;
  location : Url Val;
  trace : list (Event Val);
}.
Arguments mkWorld {Val Err Store _ _}.
Arguments cache {Val Err Store _ _} _.
Arguments observers {Val Err Store _ _} _.
Arguments mutationRetry {Val Err Store _ _} _.
Arguments now {Val Err Store _ _} _.
Arguments store {Val Err Store _ _} _.
Arguments location {Val Err Store _ _} _.
Arguments trace {Val Err Store _ _} _.

Section Runtime.
Context {Val Err Store : Type} `{Countable Val}.
Local Abbreviation World := (World Val Err Store).

(** [router.replace(url, as, {scroll})]: a client-side transition that
    replaces the current history entry. *)
Definition replace (url : Url Val) (as_ : option (Url Val)) (scroll : option bool)
    (w : World) : World :=
  {| cache := cache w;
     observers := observers w;
     mutationRetry := mutationRetry w;
     now := now w;
     store := store w;
     location := url;
     trace := trace w ++ [EvReplace url as_ scroll] |}.

(** [await queryClient.invalidateQueries(filterKey)]: the matching queries
    are marked invalid, and the promise resolves when the fetches of those
    that have an observer have settled.  The fetches start together; the
    order in which the trace lists them has no meaning. *)
Definition invalidateQueries (filterKey : list Prim) (w : World) : World :=
  {| cache := ReactQuery.invalidateQueries filterKey (isActive (observers w)) (now w)
                (store w) (cache w);
     observers := observers w;
     mutationRetry := mutationRetry w;
     now := now w;
     store := store w;
     location := location w;
     trace := trace w
              ++ EvInvalidate filterKey
                 :: (EvFetch <$> refetched filterKey (isActive (observers w)) (now w)
                                   (store w) (cache w)) |}.

(** The mutation function is run, and run again after a failure as long as
    retries are left. *)
Fixpoint executeMutation {V : Type} (retry : nat)
    (mutationFn : V → World → Settled Err (Nullable Val) * World)
    (variables : V) (w : World) : Settled Err (Nullable Val) * World :=
  match mutationFn variables w with
  | (Rejected e, w') =>
      match retry with
      | O => (Rejected e, w')
      | S retry' => executeMutation retry' mutationFn variables w'
      end
  | (Fulfilled data, w') => (Fulfilled data, w')
  end.

(** [useMutation(mutationFn, {onSuccess}).mutate(variables)], run to the end.
    The hook gives no [retry] option, so the mutation is retried as the
    defaults of the client say.  [onSuccess] is awaited with the data the
    mutation function resolved with; a rejection goes to the handle's
    [error]. *)
Definition mutate {V : Type}
    (mutationFn : V → World → Settled Err (Nullable Val) * World)
    (onSuccess : Nullable Val → World → World)
    (variables : V) (w : World) : MutationResult Val Err * World :=
  match executeMutation (mutationRetry w) mutationFn variables w with
  | (Fulfilled data, w') =>
      ({| mutation_status := MutationSuccess;
          mutation_data := data;
          mutation_error := None |}, onSuccess data w')
  | (Rejected e, w') =>
      ({| mutation_status := MutationError;
          mutation_data := Undefined;
          mutation_error := Some e |}, w')
  end.

(** The query an observer with the options [o] finds under [key]: the cached
    one, or a new one. *)
Definition findQuery (key : QueryKey Val) (o : ObserverOptions Val Err Store) (w : World)
    : Query Val Err Store :=
  adopt (opt_queryFn o)
    (default (buildQuery (now w) (opt_initialData o) (Some (opt_queryFn o)))
       (cache w !! key)).

(** Whether the observer starts a fetch in this render, and the query as
    the render leaves it. *)
Definition fetchDue (observed : option (QueryKey Val)) (wasEnabled : bool)
    (key : QueryKey Val) (o : ObserverOptions Val Err Store) (w : World) : bool :=
  shouldFetch observed wasEnabled key (opt_enabled o) (opt_staleTime o) (now w)
    (findQuery key o w).

Definition observe (observed : option (QueryKey Val)) (wasEnabled : bool)
    (key : QueryKey Val) (o : ObserverOptions Val Err Store) (w : World)
    : Query Val Err Store :=
  if fetchDue observed wasEnabled key o w
  then startFetch (opt_queryFn o) (store w) (findQuery key o w)
  else findQuery key o w.

(** [useQuery(key, queryFn, options)] in one render of an observer that was
    on the key [observed], enabled or not: the query is created when the
    cache has none under [key], the observer moves to it, and a fetch is
    started when due. *)
Definition useQuery (observed : option (QueryKey Val)) (wasEnabled : bool)
    (key : QueryKey Val) (o : ObserverOptions Val Err Store) (w : World)
    : QueryResult Val Err * World :=
  (createResult (opt_select o) (observe observed wasEnabled key o w),
   {| cache := <[key := observe observed wasEnabled key o w]> (cache w);
      observers := subscribe observed wasEnabled key (opt_enabled o) (observers w);
      mutationRetry := mutationRetry w;
      now := now w;
      store := store w;
      location := location w;
      trace := trace w
               ++ (if fetchDue observed wasEnabled key o w then [EvFetch key] else []) |}).

(** The fetch in flight for [key] settles. *)
Definition settleQuery (key : QueryKey Val) (w : World) : World :=
  {| cache := alter (settle (now w)) key (cache w);
     observers := observers w;
     mutationRetry := mutationRetry w;
     now := now w;
     store := store w;
     location := location w;
     trace := trace w |}.

(** [queryClient.setQueryData(key, data)] by other code that shares the
    client; [undefined] is ignored. *)
Definition setQueryData (key : QueryKey Val) (data : Nullable Val) (w : World) : World :=
  if isDefined data then
    {| cache :=
         <[key := {| state_data := data;
                     dataUpdatedAt := Some (now w);
                     state_status := Success;
                     state_error := None;
                     isInvalidated := false;
                     promise := promise (default (buildQuery (now w) Undefined None)
                                           (cache w !! key));
                     queryFn := queryFn (default (buildQuery (now w) Undefined None)
                                           (cache w !! key)) |}]>
           (cache w);
       observers := observers w;
       mutationRetry := mutationRetry w;
       now := now w;
       store := store w;
       location := location w;
       trace := trace w |}
  else w.

End Runtime.

End Runtime.

(** ** The parameters of [useFilters], shared by its variants *)

Module Api.
Import ReactQuery.

(** [Props]; [Key] is [QueryKey] in filters_manager.tsx and [string] in
    filters_manager.service.ts.  The asynchronous callbacks read, and
    [setFiltersValues] updates, the caller's store.  [valuesOptions] holds
    the options of the data query the caller passes through. *)
Record Props (Key Val Err Store : Type) : Type := mkProps {
  (* The key by which the data will be updated. *)
  filtersKey : Key;
  (* Initial state of filters. *)
  initialFilters : Val;
  (* Getting data by filters. *)
  getData : Val → Store → Settled Err (Nullable Val);
  (* Convert query params to filter object. *)
  queryParser : Obj → Val;
  (* Getting filters. *)
  getFiltersValues : Store → Settled Err (Nullable Val);
  (* Update filters. *)
  setFiltersValues : Val → Store → Settled Err (Nullable Val) * Store;
  (* Preparing data for entering it into query params. *)
  queryTransformer : option (Val → Val);
  (* Getting count of applied filters. *)
  getAppliedFiltersCount : option (Closure Val Z);
  (* Getting filter options. *)
  getVariants : option (Store → Settled Err (Nullable Val));
  (* Options for retrieving data. *)
  valuesOptions : UseQueryOptions Val;
}.
Arguments mkProps {Key Val Err Store}.
Arguments filtersKey {Key Val Err Store} _.
Arguments initialFilters {Key Val Err Store} _.
Arguments getData {Key Val Err Store} _.
Arguments queryParser {Key Val Err Store} _.
Arguments getFiltersValues {Key Val Err Store} _.
Arguments setFiltersValues {Key Val Err Store} _.
Arguments queryTransformer {Key Val Err Store} _.
Arguments getAppliedFiltersCount {Key Val Err Store} _.
Arguments getVariants {Key Val Err Store} _.
Arguments valuesOptions {Key Val Err Store} _.

End Api.

(** ** [useFilters] of src/filters_manager.tsx *)

Module Manager.
Import ReactQuery Next Runtime.
Export Api.

(** The React state of one mounted hook: the [useState] cell, the
    dependencies of the last run of the effect, the key each of the three
    query observers is on, and whether the observer of the data query was
    enabled. *)
Record Instance (Val : Type) : Type := mkInstance {
  appliedFiltersCountState : Z;
  effectDeps : option (Nullable Val * option nat);
  variantsObserver : option (QueryKey Val);
  filtersObserver : option (QueryKey Val);
  valuesObserver : option (QueryKey Val);
  valuesEnabled : bool;
}.
Arguments mkInstance {Val}.
Arguments appliedFiltersCountState {Val} _.
Arguments effectDeps {Val} _.
Arguments variantsObserver {Val} _.
Arguments filtersObserver {Val} _.
Arguments valuesObserver {Val} _.
Arguments valuesEnabled {Val} _.

(** The read part of what the hook returns; the two mutation handles are
    [setFilters] and [resetFilters] below. *)
Record UseFiltersState (Val Err : Type) : Type := mkUseFiltersState {
  appliedFiltersCount : Z;
  values : QueryResult Val Err;
  initialFilters_ : Val;
  filters : QueryResult Val Err;
  variants : QueryResult Val Err;
}.
Arguments mkUseFiltersState {Val Err}.
Arguments appliedFiltersCount {Val Err} _.
Arguments values {Val Err} _.
Arguments initialFilters_ {Val Err} _.
Arguments filters {Val Err} _.
Arguments variants {Val Err} _.

Section Hook.
Context {Val Err Store : Type} `{Countable Val}.
Local Abbreviation World := (World Val Err Store).
Local Abbreviation Props := (Props (list Prim) Val Err Store).

(** A hook that has not rendered yet: [useState(0)]. *)
Definition mount : Instance Val :=
  {| appliedFiltersCountState := 0;
     effectDeps := None;
     variantsObserver := None;
     filtersObserver := None;
     valuesObserver := None;
     valuesEnabled := true |}.

(** [[...filtersKey, 'variants']] *)
Definition variantsKey (p : Props) : QueryKey Val :=
  (SPrim <$> filtersKey p) ++ [SPrim (PStr "variants")].

(** [[...filtersKey, 'filters', router.isReady, initialFilters]] *)
Definition filtersQueryKey (p : Props) (router : Router) : QueryKey Val :=
  (SPrim <$> filtersKey p)
  ++ [SPrim (PStr "filters"); SPrim (PBool (isReady router)); SVal (Some (initialFilters p))].

(** [[...filtersKey, filters.data]] *)
Definition valuesKey (p : Props) (filtersData : Nullable Val) : QueryKey Val :=
  (SPrim <$> filtersKey p) ++ [segOfData filtersData].

(** [[...filtersKey, 'filters']], the key given to [invalidateQueries]. *)
Definition filtersFilterKey (p : Props) : list Prim :=
  filtersKey p ++ [PStr "filters"].

(** [async () => getVariants ? getVariants() : null] *)
Definition variantsQueryFn (p : Props) (st : Store) : Settled Err (Nullable Val) :=
  match getVariants p with
  | Some getVariants => getVariants st
  | None => Fulfilled Null
  end.

(** [async () => (await getFiltersValues()) ?? initialFilters] *)
Definition filtersQueryFn (p : Props) (st : Store) : Settled Err (Nullable Val) :=
  match getFiltersValues p st with
  | Fulfilled v => Fulfilled (Defined (coalesce v (initialFilters p)))
  | Rejected e => Rejected e
  end.

(** The [initialData] option of the filters query. *)
Definition filtersInitialData (p : Props) (router : Router) : Nullable Val :=
  if negb (isReady router) then Undefined
  else if bool_decide (size (query router) ≠ 0) then Defined (queryParser p (query router))
  else Defined (initialFilters p).

(** [select: (data) => data ?? initialFilters] *)
Definition filtersSelect (p : Props) (data : Nullable Val) : Nullable Val :=
  Defined (coalesce data (initialFilters p)).

(** [() => getData(filters.data ?? initialFilters)] *)
Definition valuesQueryFn (p : Props) (filtersData : Nullable Val) (st : Store)
    : Settled Err (Nullable Val) :=
  getData p (coalesce filtersData (initialFilters p)) st.

(** The options of the three observers.  The variants and the filters
    queries are given none but those written out in the hook; the data query
    is given [valuesOptions], in which [enabled] counts unless it is
    [false]. *)
Definition variantsOptions (p : Props) : ObserverOptions Val Err Store :=
  {| opt_queryFn := variantsQueryFn p;
     opt_initialData := Undefined;
     opt_select := id;
     opt_enabled := true;
     opt_staleTime := Millis 0 |}.

Definition filtersOptions (p : Props) (router : Router) : ObserverOptions Val Err Store :=
  {| opt_queryFn := filtersQueryFn p;
     opt_initialData := filtersInitialData p router;
     opt_select := filtersSelect p;
     opt_enabled := true;
     opt_staleTime := Millis 0 |}.

Definition valuesEnabledOf (p : Props) : bool :=
  negb (bool_decide (enabled (valuesOptions p) = Some false)).

Definition valuesObserverOptions (p : Props) (filtersData : Nullable Val)
    : ObserverOptions Val Err Store :=
  {| opt_queryFn := valuesQueryFn p filtersData;
     opt_initialData := Undefined;
     opt_select := default id (select (valuesOptions p));
     opt_enabled := valuesEnabledOf p;
     opt_staleTime := default (Millis 0) (staleTime (valuesOptions p)) |}.

Definition handleSetFiltersInUrl (p : Props) (router : Router) (data : Nullable Val)
    (w : World) : World :=
  if negb (isReady router) || Js.not data then w
  else
    let transformedData :=
      match queryTransformer p with
      | Some queryTransformer => Js.map queryTransformer data
      | None => data
      end in
    replace (UrlObject (stripQuery (asPath router)) transformedData) None None w.

(** The call of the caller's [setFiltersValues]: it acts on the caller's
    store, and leaves its argument in the trace. *)
Definition callSetFiltersValues (p : Props) (data : Val) (w : World)
    : Settled Err (Nullable Val) * World :=
  let '(outcome, st) := setFiltersValues p data (store w) in
  (outcome,
   {| cache := cache w;
      observers := observers w;
      mutationRetry := mutationRetry w;
      now := now w;
      store := st;
      location := location w;
      trace := trace w ++ [EvPersist data] |}).

Definition setFilters_onSuccess (p : Props) (router : Router) (data : Nullable Val)
    (w : World) : World :=
  handleSetFiltersInUrl p router data (invalidateQueries (filtersFilterKey p) w).

Definition setFilters (p : Props) (router : Router) (data : Val) (w : World)
    : MutationResult Val Err * World :=
  mutate (callSetFiltersValues p) (setFilters_onSuccess p router) data w.

Definition resetFilters_onSuccess (p : Props) (router : Router) (data : Nullable Val)
    (w : World) : World :=
  handleSetFiltersInUrl p router data (invalidateQueries (filtersFilterKey p) w).

Definition resetFilters (p : Props) (router : Router) (callback : option (Val → Val))
    (w : World) : MutationResult Val Err * World :=
  mutate
    (λ callback,
       callSetFiltersValues p
         (match callback with
          | Some callback => callback (initialFilters p)
          | None => initialFilters p
          end))
    (resetFilters_onSuccess p router) callback w.

(** The body of the hook, one render. *)
Definition useFilters (p : Props) (router : Router) (inst : Instance Val) (w : World)
    : UseFiltersState Val Err * Instance Val * World :=
  let '(variants, w1) :=
    useQuery (variantsObserver inst) true (variantsKey p) (variantsOptions p) w in
  let '(filters, w2) :=
    useQuery (filtersObserver inst) true (filtersQueryKey p router)
      (filtersOptions p router) w1 in
  let '(values, w3) :=
    useQuery (valuesObserver inst) (valuesEnabled inst) (valuesKey p (data filters))
      (valuesObserverOptions p (data filters)) w2 in
  ({| appliedFiltersCount := appliedFiltersCountState inst;
      values := values;
      initialFilters_ := initialFilters p;
      filters := filters;
      variants := variants |},
   {| appliedFiltersCountState := appliedFiltersCountState inst;
      effectDeps := effectDeps inst;
      variantsObserver := Some (variantsKey p);
      filtersObserver := Some (filtersQueryKey p router);
      valuesObserver := Some (valuesKey p (data filters));
      valuesEnabled := valuesEnabledOf p |},
   w3).

(** The effect, after the render has committed: it runs on mount and when
    [[filters.data, getAppliedFiltersCount]] has changed, and sets the state
    only when the function is there. *)
Definition useEffect (p : Props) (filtersData : Nullable Val) (inst : Instance Val)
    : Instance Val :=
  let deps := (filtersData, fn_id <$> getAppliedFiltersCount p) in
  if bool_decide (effectDeps inst = Some deps) then inst
  else
    {| appliedFiltersCountState :=
         match getAppliedFiltersCount p with
         | Some getAppliedFiltersCount =>
             call getAppliedFiltersCount (coalesce filtersData (initialFilters p))
         | None => appliedFiltersCountState inst
         end;
       effectDeps := Some deps;
       variantsObserver := variantsObserver inst;
       filtersObserver := filtersObserver inst;
       valuesObserver := valuesObserver inst;
       valuesEnabled := valuesEnabled inst |}.

(** One evaluation cycle: a render, then its effect. *)
Definition cycle (p : Props) (router : Router) (inst : Instance Val) (w : World)
    : UseFiltersState Val Err * Instance Val * World :=
  let '(out, inst', w') := useFilters p router inst w in
  (out, useEffect p (data (filters out)) inst', w').

(** What can happen to a mounted hook and to the world around it: an
    evaluation cycle with the props and router of the moment, the settling
    of a fetch, one of the two mutations, a write by other users of the
    cache client. *)
Inductive Action : Type :=
| ActCycle (p : Props) (router : Router)
| ActSettle (key : QueryKey Val)
| ActSetFilters (p : Props) (router : Router) (data : Val)
| ActResetFilters (p : Props) (router : Router) (callback : option (Val → Val))
| ActSetQueryData (key : QueryKey Val) (data : Nullable Val).

Definition perform (s : Instance Val * World) (a : Action) : Instance Val * World :=
  match a with
  | ActCycle p router =>
      let '(_, inst', w') := cycle p router s.1 s.2 in (inst', w')
  | ActSettle key => (s.1, settleQuery key s.2)
  | ActSetFilters p router data => (s.1, (setFilters p router data s.2).2)
  | ActResetFilters p router callback => (s.1, (resetFilters p router callback s.2).2)
  | ActSetQueryData key data => (s.1, setQueryData key data s.2)
  end.

Definition run (actions : list Action) (s : Instance Val * World) : Instance Val * World :=
  fold_left perform actions s.

(** The props the hook was rendered with so far. *)
Definition propsOf (a : Action) : option Props :=
  match a with
  | ActCycle p _ => Some p
  | _ => None
  end.

(** The end of a key of the hook, after its primitive segments: nothing, or
    one filter value. *)
Definition isKeyEnd (t : QueryKey Val) : Prop := t = [] ∨ ∃ v, t = [SVal v].

(** The keys of the three queries of a hook with namespace [k], whatever
    its other props, the router and the filters are. *)
Definition ownedKey (k : list Prim) (key : QueryKey Val) : Prop :=
  ∃ (p : Props) (router : Router) (filtersData : Nullable Val),
    filtersKey p = k
    ∧ (key = variantsKey p ∨ key = filtersQueryKey p router ∨ key = valuesKey p filtersData).

End Hook.

End Manager.

(** ** [handleSetFiltersInUrl] of dist/cjs/filters_manager.js

    The build that takes the router from the context and two more options,
    [querySetter] and [scrollAfterUpdateQuery]. *)

Module ManagerCjs.
Import ReactQuery Next Runtime.
Export Api.

Section Hook.
Context {Val Err Store : Type} `{Countable Val}.
Local Abbreviation World := (World Val Err Store).
Local Abbreviation Props := (Props (list Prim) Val Err Store).

(** A call of the caller's [querySetter], which may do what it likes. *)
Definition callQuerySetter (querySetter : Nullable Val → World → World)
    (data : Nullable Val) (w : World) : World :=
  let w' := querySetter data w in
  {| cache := cache w';
     observers := observers w';
     mutationRetry := mutationRetry w';
     now := now w';
     store := store w';
     location := location w';
     trace := trace w' ++ [EvQuerySetter data] |}.

Definition handleSetFiltersInUrl (p : Props)
    (querySetter : option (Nullable Val → World → World))
    (scrollAfterUpdateQuery : option bool)
    (router : Router) (data : Nullable Val) (w : World) : World :=
  if negb (isReady router) || Js.not data then w
  else
    let transformedData :=
      match queryTransformer p with
      | Some queryTransformer => Js.map queryTransformer data
      | None => data
      end in
    match querySetter with
    | Some querySetter => callQuerySetter querySetter transformedData w
    | None =>
        replace (UrlObject (stripQuery (asPath router)) transformedData) None
          scrollAfterUpdateQuery w
    end.

End Hook.

End ManagerCjs.

(** ** [useFilters] of filters_manager.service.ts

    The variant with a string [filtersKey] and the query-string codec; the
    parts that differ from filters_manager.tsx. *)

Module Service.
Import ReactQuery Next Runtime.
Export Api.

(** [{arrayFormat: 'bracket', skipNull: true, skipEmptyString: true}] *)
Definition queryStringConfig : QueryString.Options :=
  {| QueryString.arrayFormat := QueryString.FormatBracket;
     QueryString.skipNull := true;
     QueryString.skipEmptyString := true |}.

Section Hook.
Context {Val Err Store : Type} `{Countable Val}.
(** The own enumerable fields of a filter value, which the codec walks. *)
Context (fieldsOf : Val → Obj).
Local Abbreviation World := (World Val Err Store).
Local Abbreviation Props := (Props string Val Err Store).

(** [[filtersKey + 'variants']] *)
Definition variantsKey (p : Props) : QueryKey Val :=
  [SPrim (PStr (filtersKey p ++ "variants"))].

(** [[filtersKey + 'filters', router.isReady, initialFilters]] *)
Definition filtersQueryKey (p : Props) (router : Router) : QueryKey Val :=
  [SPrim (PStr (filtersKey p ++ "filters")); SPrim (PBool (isReady router));
   SVal (Some (initialFilters p))].

(** [[filtersKey, filters.data]] *)
Definition valuesKey (p : Props) (filtersData : Nullable Val) : QueryKey Val :=
  [SPrim (PStr (filtersKey p)); segOfData filtersData].

(** [[filtersKey + 'filters']], the key given to [invalidateQueries]. *)
Definition filtersFilterKey (p : Props) : list Prim :=
  [PStr (filtersKey p ++ "filters")].

(** The [initialData] option of the filters query. *)
Definition filtersInitialData (p : Props) (router : Router) : Nullable Val :=
  if negb (isReady router) then Undefined
  else
    let queries := QueryString.query (QueryString.parseUrl (asPath router) queryStringConfig) in
    if bool_decide (size queries ≠ 0) then Defined (queryParser p queries)
    else Defined (initialFilters p).

(** [stringify(transformedData, options)]; the codec gives [''] for a value
    that is not an object. *)
Definition stringify (transformedData : Nullable Val) (options : QueryString.Options)
    : string :=
  match transformedData with
  | Defined v => QueryString.stringify (fieldsOf v) options
  | _ => ""
  end.

Definition handleSetFiltersInUrl (p : Props) (router : Router) (data : Nullable Val)
    (w : World) : World :=
  if negb (isReady router) || Js.not data then w
  else
    let transformedData :=
      match queryTransformer p with
      | Some queryTransformer => Js.map queryTransformer data
      | None => data
      end in
    let query := stringify transformedData queryStringConfig in
    let url := QueryString.url (QueryString.parseUrl (asPath router) QueryString.defaultOptions) in
    let replacedUrl := url ++ (if bool_decide (query ≠ "") then "?" ++ query else "") in
    replace (UrlString replacedUrl) (Some (UrlString replacedUrl)) (Some false) w.

Definition callSetFiltersValues (p : Props) (data : Val) (w : World)
    : Settled Err (Nullable Val) * World :=
  let '(outcome, st) := setFiltersValues p data (store w) in
  (outcome,
   {| cache := cache w;
      observers := observers w;
      mutationRetry := mutationRetry w;
      now := now w;
      store := st;
      location := location w;
      trace := trace w ++ [EvPersist data] |}).

Definition setFilters_onSuccess (p : Props) (router : Router) (data : Nullable Val)
    (w : World) : World :=
  handleSetFiltersInUrl p router data (invalidateQueries (filtersFilterKey p) w).

Definition setFilters (p : Props) (router : Router) (data : Val) (w : World)
    : MutationResult Val Err * World :=
  mutate (callSetFiltersValues p) (setFilters_onSuccess p router) data w.

Definition resetFilters_onSuccess (p : Props) (router : Router) (data : Nullable Val)
    (w : World) : World :=
  handleSetFiltersInUrl p router data (invalidateQueries (filtersFilterKey p) w).

Definition resetFilters (p : Props) (router : Router) (callback : option (Val → Val))
    (w : World) : MutationResult Val Err * World :=
  mutate
    (λ callback,
       callSetFiltersValues p
         (match callback with
          | Some callback => callback (initialFilters p)
          | None => initialFilters p
          end))
    (resetFilters_onSuccess p router) callback w.

(** The keys of the three queries of a hook with namespace [k]. *)
Definition ownedKey (k : string) (key : QueryKey Val) : Prop :=
  ∃ (p : Props) (router : Router) (filtersData : Nullable Val),
    filtersKey p = k
    ∧ (key = variantsKey p ∨ key = filtersQueryKey p router ∨ key = valuesKey p filtersData).

End Hook.

End Service.

(** ** [FiltersManagerContextProvider] of src/filters_manager.tsx *)

Module Provider.

(** A cache client, by identity: one the caller constructed, or the
    [serial]-th one the provider constructed with [new QueryClient()]. *)
Inductive QueryClient : Type :=
| Supplied (id : nat)
| Constructed (serial : nat).

#[global] Instance QueryClient_eq_dec : EqDecision QueryClient.
Proof. solve_decision. Defined.

(** The React state of one mounted provider: the [useMemo] cell, with the
    dependency it was computed for, and the number of clients constructed so
    far. *)
Record Instance : Type := mkInstance {
  memo : option (Nullable nat * QueryClient);
  constructed : nat;
}.

(** What the provider hands to the tree below it: the value of
    [FiltersManagerContext], which is [null], and the client of
    [QueryClientProvider]. *)
Record Rendered : Type := mkRendered {
  contextValue : Nullable ();
  client : QueryClient;
}.

(** A provider that has not rendered yet. *)
Definition mount : Instance := {| memo := None; constructed := 0 |}.

(** [() => queryClient ?? new QueryClient()], for the caller's client
    [queryClient] if any. *)
Definition createClient (queryClient : Nullable nat) (inst : Instance)
    : QueryClient * Instance :=
  match queryClient with
  | Defined id =>
      (Supplied id,
       {| memo := Some (queryClient, Supplied id); constructed := constructed inst |})
  | _ =>
      (Constructed (constructed inst),
       {| memo := Some (queryClient, Constructed (constructed inst));
          constructed := S (constructed inst) |})
  end.

(** [useMemo(factory, [queryClient])]: the factory runs in the first render
    and when [queryClient] is not the one of the render before. *)
Definition useMemo (queryClient : Nullable nat) (inst : Instance) : QueryClient * Instance :=
  match memo inst with
  | Some (deps, client) =>
      if bool_decide (deps = queryClient) then (client, inst)
      else createClient queryClient inst
  | None => createClient queryClient inst
  end.

Definition FiltersManagerContextProvider (queryClient : Nullable nat) (inst : Instance)
    : Rendered * Instance :=
  let '(client, inst') := useMemo queryClient inst in
  ({| contextValue := Null; client := client |}, inst').

(** The renders of one mounted provider, with the [queryClient] prop of
    each, and the clients they provided. *)
Definition render (s : Instance * list QueryClient) (queryClient : Nullable nat)
    : Instance * list QueryClient :=
  let '(rendered, inst') := FiltersManagerContextProvider queryClient s.1 in
  (inst', (s.2 ++ [client rendered])%list).

Definition renders (props : list (Nullable nat)) : Instance * list QueryClient :=
  fold_left render props (mount, []).

End Provider.

(** ** What the effect of a mounted hook has established *)

Module Invariant.
Import Manager.

(** The effect last ran with the function [f], and the cell holds the count
    of the filters it ran with; or the effect has not run yet. *)
Definition countCurrent {Val : Type} (f : Closure Val Z) (initial : Val)
    (inst : Instance Val) : Prop :=
  effectDeps inst = None
  ∨ ∃ filtersData,
      effectDeps inst = Some (filtersData, Some (fn_id f))
      ∧ appliedFiltersCountState inst = call f (coalesce filtersData initial).

End Invariant.

(** ** Sample inputs: the cart filters of the README *)

Module Sample.
Import ReactQuery Next Runtime Api.

(** The filters persisted in local storage, if any. *)
Abbreviation Store := (option Obj).
Abbreviation Err := string.

(** [{page: 1, perPage: 50, sortBy: null, sortDirection: 'asc'}] *)
Definition cartInitialFilters : Obj :=
  <["page" := One (VNum (int 1 I))]> (<["perPage" := One (VNum (int 50 I))]>
    (<["sortBy" := One VNull]> (<["sortDirection" := One (VStr "asc")]> ∅))).

(** A parser that fills the fields the query does not give from the
    defaults. *)
Definition cartQueryParser (queries : Obj) : Obj := queries ∪ cartInitialFilters.

Definition getFiltersValuesLocal (st : Store) : Settled Err (Nullable Obj) :=
  Fulfilled (match st with Some v => Defined v | None => Undefined end).

Definition setFiltersValuesLocal (data : Obj) (st : Store)
    : Settled Err (Nullable Obj) * Store :=
  (Fulfilled (Defined data), Some data).

Definition setFiltersValuesOffline (data : Obj) (st : Store)
    : Settled Err (Nullable Obj) * Store :=
  (Rejected "offline", st).

Definition getCart (filters : Obj) (st : Store) : Settled Err (Nullable Obj) :=
  Fulfilled (Defined filters).

Definition countApplied : Closure Obj Z :=
  {| fn_id := 1; call := λ filters, Z.of_nat (size filters) |}.

Definition propsFor (key : list Prim) : Props (list Prim) Obj Err Store :=
  {| filtersKey := key;
     initialFilters := cartInitialFilters;
     getData := getCart;
     queryParser := cartQueryParser;
     getFiltersValues := getFiltersValuesLocal;
     setFiltersValues := setFiltersValuesLocal;
     queryTransformer := None;
     getAppliedFiltersCount := None;
     getVariants := None;
     valuesOptions := {| enabled := None; staleTime := None; select := None |} |}.

Definition cartProps : Props (list Prim) Obj Err Store := propsFor [PStr "cart"].

Definition cartPropsCounting : Props (list Prim) Obj Err Store :=
  {| filtersKey := [PStr "cart"];
     initialFilters := cartInitialFilters;
     getData := getCart;
     queryParser := cartQueryParser;
     getFiltersValues := getFiltersValuesLocal;
     setFiltersValues := setFiltersValuesLocal;
     queryTransformer := None;
     getAppliedFiltersCount := Some countApplied;
     getVariants := None;
     valuesOptions := {| enabled := None; staleTime := None; select := None |} |}.

(** The same hook, given [{page: 1}] as its initial filters. *)
Definition cartPropsCountingPage : Props (list Prim) Obj Err Store :=
  {| filtersKey := [PStr "cart"];
     initialFilters := {["page" := One (VNum (int 1 I))]};
     getData := getCart;
     queryParser := cartQueryParser;
     getFiltersValues := getFiltersValuesLocal;
     setFiltersValues := setFiltersValuesLocal;
     queryTransformer := None;
     getAppliedFiltersCount := Some countApplied;
     getVariants := None;
     valuesOptions := {| enabled := None; staleTime := None; select := None |} |}.



(** The same hook, with [valuesOptions: {enabled: false}]. *)
Definition cartPropsDisabled : Props (list Prim) Obj Err Store :=
  {| filtersKey := [PStr "cart"];
     initialFilters := cartInitialFilters;
     getData := getCart;
     queryParser := cartQueryParser;
     getFiltersValues := getFiltersValuesLocal;
     setFiltersValues := setFiltersValuesLocal;
     queryTransformer := None;
     getAppliedFiltersCount := None;
     getVariants := None;
     valuesOptions := {| enabled := Some false; staleTime := None; select := None |} |}.

Definition cartPropsOffline : Props (list Prim) Obj Err Store :=
  {| filtersKey := [PStr "cart"];
     initialFilters := cartInitialFilters;
     getData := getCart;
     queryParser := cartQueryParser;
     getFiltersValues := getFiltersValuesLocal;
     setFiltersValues := setFiltersValuesOffline;
     queryTransformer := None;
     getAppliedFiltersCount := None;
     getVariants := None;
     valuesOptions := {| enabled := None; staleTime := None; select := None |} |}.

Definition servicePropsFor (key : string) : Props string Obj Err Store :=
  {| filtersKey := key;
     initialFilters := cartInitialFilters;
     getData := getCart;
     queryParser := cartQueryParser;
     getFiltersValues := getFiltersValuesLocal;
     setFiltersValues := setFiltersValuesLocal;
     queryTransformer := None;
     getAppliedFiltersCount := None;
     getVariants := None;
     valuesOptions := {| enabled := None; staleTime := None; select := None |} |}.

Definition routerNotReady : Router :=
  {| isReady := false; asPath := "/cart"; query := ∅ |}.

Definition routerReady : Router :=
  {| isReady := true; asPath := "/cart"; query := ∅ |}.

Definition routerWithQuery : Router :=
  {| isReady := true;
     asPath := "/cart?page=2&sortDirection=desc";
     query := <["page" := One (VStr "2")]> (<["sortDirection" := One (VStr "desc")]> ∅) |}.

(** A store that is busy at the first write and accepts the next one. *)
Definition setFiltersValuesBusy (data : Obj) (st : Store)
    : Settled Err (Nullable Obj) * Store :=
  match st with
  | None => (Rejected "busy", Some ∅)
  | Some _ => (Fulfilled (Defined data), Some data)
  end.

Definition cartPropsBusy : Props (list Prim) Obj Err Store :=
  {| filtersKey := [PStr "cart"];
     initialFilters := cartInitialFilters;
     getData := getCart;
     queryParser := cartQueryParser;
     getFiltersValues := getFiltersValuesLocal;
     setFiltersValues := setFiltersValuesBusy;
     queryTransformer := None;
     getAppliedFiltersCount := None;
     getVariants := None;
     valuesOptions := {| enabled := None; staleTime := None; select := None |} |}.

(** [{page: 2, perPage: 50, sortBy: null, sortDirection: 'asc'}] *)
Definition page2 : Obj := <["page" := One (VNum (int 2 I))]> cartInitialFilters.

(** A new client, as the provider constructs it, at some time, with nothing
    stored and the page on [/cart]. *)
Definition world0 : World Obj Err Store :=
  {| cache := ∅;
     observers := ∅;
     mutationRetry := defaultMutationRetry;
     now := 1000;
     store := None;
     location := UrlString "/cart";
     trace := [] |}.

(** A client the caller has constructed with
    [{defaultOptions: {mutations: {retry: 1}}}]. *)
Definition worldRetrying : World Obj Err Store :=
  {| cache := ∅;
     observers := ∅;
     mutationRetry := 1;
     now := 1000;
     store := None;
     location := UrlString "/cart";
     trace := [] |}.

(** [{sortBy: null, sortDirection: 'asc', tags: ['new', 'sale'], q: ''}] *)
Definition taggedFilters : Obj :=
  <["sortBy" := One VNull]> (<["sortDirection" := One (VStr "asc")]>
    (<["tags" := Many [VStr "new"; VStr "sale"]]> (<["q" := One (VStr "")]> ∅))).

(** Three hooks on one client, with the namespaces [['a']],
    [['a', 'filters']] and [['a', 'filters', true]]. *)
Definition propsA : Props (list Prim) Obj Err Store := propsFor [PStr "a"].

Definition propsAFilters : Props (list Prim) Obj Err Store :=
  propsFor [PStr "a"; PStr "filters"].

Definition propsAFiltersTrue : Props (list Prim) Obj Err Store :=
  propsFor [PStr "a"; PStr "filters"; PBool true].



(** The router on the URL a reflection of [taggedFilters] navigates to. *)
Definition routerReflected : Router :=
  {| isReady := true;
     asPath := "/cart?sortDirection=asc&tags[]=new&tags[]=sale";
     query := ∅ |}.

End Sample.

(** * Properties *)

Local Open Scope list_scope.

(** ** The cache collaborator *)

Section CacheFacts.
Context {Val Err Store : Type} `{Countable Val}.
Import ReactQuery.
Local Abbreviation Cache := (gmap (QueryKey Val) (Query Val Err Store)).

Lemma partialMatchKey_prefix (key : QueryKey Val) (filterKey : list Prim) :
  partialMatchKey key filterKey = true ↔ ∃ rest, key = (SPrim <$> filterKey) ++ rest.
Proof.
  revert key. induction filterKey as [|p filterKey IH]; intros key; simpl.
  - split; [intros _; by exists key | done].
  - destruct key as [|[p'|v] key]; simpl.
    + split; [done | intros [rest Hrest]; discriminate].
    + rewrite andb_true_iff, bool_decide_eq_true, IH. split.
      * intros [-> [rest ->]]. by exists rest.
      * intros [rest Hrest]. injection Hrest as -> ->. split; [done | by exists rest].
    + split; [done | intros [rest Hrest]; discriminate].
Qed.

Lemma lookup_invalidateQueries (filterKey : list Prim) (active : QueryKey Val → bool)
    (now : nat) (st : Store) (cache : Cache) (key : QueryKey Val) :
  ReactQuery.invalidateQueries filterKey active now st cache !! key
  = (λ q, if partialMatchKey key filterKey
          then if active key then (refetch now st (invalidate q)).1 else invalidate q
          else q) <$> cache !! key.
Proof.
  unfold ReactQuery.invalidateQueries. rewrite map_lookup_imap.
  by destruct (cache !! key).
Qed.




End CacheFacts.

(** ** The write operations of filters_manager.tsx *)

Section MutationFacts.
Context {Val Err Store : Type} `{Countable Val}.
Import ReactQuery Next Runtime.
Local Abbreviation World := (World Val Err Store).

(** An attempt that succeeds is the last one. *)
Lemma executeMutation_fulfilled {V : Type} (retry : nat)
    (mutationFn : V → World → Settled Err (Nullable Val) * World) (variables : V)
    (w w' : World) (R : Nullable Val) :
  mutationFn variables w = (Fulfilled R, w') →
  executeMutation retry mutationFn variables w = (Fulfilled R, w').
Proof. intros Hcall. destruct retry; simpl; by rewrite Hcall. Qed.

(** Without retries the mutation function is called once. *)
Lemma executeMutation_once {V : Type}
    (mutationFn : V → World → Settled Err (Nullable Val) * World) (variables : V) (w : World) :
  executeMutation 0 mutationFn variables w = mutationFn variables w.
Proof. simpl. by destruct (mutationFn variables w) as [[data|e] w']. Qed.

(** The attempts of a persistence call: each is the same call on the store
    the attempt before has left, and they touch nothing but the store; after
    a rejection all the attempts the client allows have been made. *)
Lemma executeMutation_persist (persist : Val → Store → Settled Err (Nullable Val) * Store)
    (mutationFn : Val → World → Settled Err (Nullable Val) * World) (retry : nat)
    (d : Val) (w : World) :
  (∀ d w, mutationFn d w
          = ((persist d (store w)).1,
             {| cache := cache w;
                observers := observers w;
                mutationRetry := mutationRetry w;
                now := now w;
                store := (persist d (store w)).2;
                location := location w;
                trace := trace w ++ [EvPersist d] |})) →
  cache (executeMutation retry mutationFn d w).2 = cache w
  ∧ observers (executeMutation retry mutationFn d w).2 = observers w
  ∧ mutationRetry (executeMutation retry mutationFn d w).2 = mutationRetry w
  ∧ now (executeMutation retry mutationFn d w).2 = now w
  ∧ location (executeMutation retry mutationFn d w).2 = location w
  ∧ ∃ attempts,
      (1 ≤ attempts ≤ S retry)%nat
      ∧ trace (executeMutation retry mutationFn d w).2
        = trace w ++ replicate attempts (EvPersist d)
      ∧ (∀ e, (executeMutation retry mutationFn d w).1 = Rejected e →
              attempts = S retry ∧ ∃ st, (persist d st).1 = Rejected e).
Proof.
  intros Hfn. revert w. induction retry as [|retry IH]; intros w.
  - rewrite executeMutation_once, Hfn. simpl. repeat split.
    exists 1%nat. split; [lia|]. split; [done|]. intros e He. split; [done|]. by eexists.
  - simpl. rewrite Hfn. destruct (persist d (store w)) as [[R|e] st] eqn:Hcall; simpl.
    + repeat split. exists 1%nat. split; [lia|]. split; [done|]. intros e He. done.
    + specialize (IH {| cache := cache w;
                        observers := observers w;
                        mutationRetry := mutationRetry w;
                        now := now w;
                        store := st;
                        location := location w;
                        trace := trace w ++ [EvPersist d] |}).
      destruct IH as (Hc & Ho & Hr & Hn & Hl & attempts & Hk & Ht & Hrej).
      simpl in *. repeat split; try done.
      exists (S attempts). split; [lia|]. split.
      * rewrite Ht, <- app_assoc. done.
      * intros e' He'. destruct (Hrej e' He') as [-> Hst]. done.
Qed.

(** The mutation function in full: the attempts are made one after the
    other, each on the store the one before has left, until one resolves or
    none is left; the result is the one of the last attempt. *)
Lemma executeMutation_world (persist : Val → Store → Settled Err (Nullable Val) * Store)
    (mutationFn : Val → World → Settled Err (Nullable Val) * World) (retry : nat)
    (d : Val) (w : World) :
  (∀ d w, mutationFn d w
          = ((persist d (store w)).1,
             {| cache := cache w;
                observers := observers w;
                mutationRetry := mutationRetry w;
                now := now w;
                store := (persist d (store w)).2;
                location := location w;
                trace := trace w ++ [EvPersist d] |})) →
  ∃ attempts,
    (1 ≤ attempts ≤ S retry)%nat
    ∧ executeMutation retry mutationFn d w
      = ((persist d (Nat.iter (attempts - 1) (λ st, (persist d st).2) (store w))).1,
         {| cache := cache w;
            observers := observers w;
            mutationRetry := mutationRetry w;
            now := now w;
            store := Nat.iter attempts (λ st, (persist d st).2) (store w);
            location := location w;
            trace := trace w ++ replicate attempts (EvPersist d) |})
    ∧ (∀ k, (k < attempts - 1)%nat →
            ∃ e, (persist d (Nat.iter k (λ st, (persist d st).2) (store w))).1 = Rejected e)
    ∧ (∀ e, (persist d (Nat.iter (attempts - 1) (λ st, (persist d st).2) (store w))).1
            = Rejected e →
            attempts = S retry).
Proof.
  intros Hfn. revert w. induction retry as [|retry IH]; intros w.
  - rewrite executeMutation_once, Hfn. exists 1%nat. split; [lia|].
    split; [done|]. split; [|done]. intros k Hk. simpl in Hk. lia.
  - simpl. rewrite Hfn. destruct (persist d (store w)) as [[R|e] st] eqn:Hcall; cbn [fst snd].
    + exists 1%nat. split; [lia|]. cbn [Nat.sub Nat.iter nat_rect replicate].
      rewrite Hcall. split; [done|]. split; [intros k Hk; lia | done].
    + destruct (IH {| cache := cache w;
                      observers := observers w;
                      mutationRetry := mutationRetry w;
                      now := now w;
                      store := st;
                      location := location w;
                      trace := trace w ++ [EvPersist d] |})
        as (attempts & Hk & Hexec & Hearlier & Hall).
      cbn [cache observers mutationRetry now store location trace] in Hexec, Hearlier, Hall.
      assert (Hst : st = (persist d (store w)).2) by (by rewrite Hcall).
      assert (Hshift : Nat.iter (S attempts - 1) (λ st, (persist d st).2) (store w)
                       = Nat.iter (attempts - 1) (λ st, (persist d st).2) st).
      { destruct attempts as [|attempts]; [lia|].
        replace (S (S attempts) - 1)%nat with (S attempts) by lia.
        replace (S attempts - 1)%nat with attempts by lia.
        by rewrite Nat.iter_succ_r, <- Hst. }
      exists (S attempts). split; [lia|]. split; [|split].
      * rewrite Hexec, Hshift. by rewrite Nat.iter_succ_r, <- Hst, <- app_assoc.
      * intros k Hlt. destruct k as [|k].
        -- exists e. cbn [Nat.iter nat_rect]. by rewrite Hcall.
        -- destruct (Hearlier k) as [e' He']; [lia|]. exists e'.
           by rewrite Nat.iter_succ_r, <- Hst.
      * intros e' He'. rewrite Hshift in He'. by rewrite (Hall e' He').
Qed.

(** The store after the attempts: each attempt acts on the store the one
    before has left. *)
Lemma executeMutation_store (persist : Val → Store → Settled Err (Nullable Val) * Store)
    (mutationFn : Val → World → Settled Err (Nullable Val) * World) (retry : nat)
    (d : Val) (w : World) :
  (∀ d w, mutationFn d w
          = ((persist d (store w)).1,
             {| cache := cache w;
                observers := observers w;
                mutationRetry := mutationRetry w;
                now := now w;
                store := (persist d (store w)).2;
                location := location w;
                trace := trace w ++ [EvPersist d] |})) →
  ∃ attempts,
    (1 ≤ attempts ≤ S retry)%nat
    ∧ store (executeMutation retry mutationFn d w).2
      = Nat.iter attempts (λ st, (persist d st).2) (store w)
    ∧ ((∃ R, (persist d (store w)).1 = Fulfilled R) → attempts = 1%nat).
Proof.
  intros Hfn. revert w. induction retry as [|retry IH]; intros w.
  - rewrite executeMutation_once, Hfn. exists 1%nat. split; [lia|]. done.
  - simpl. rewrite Hfn. destruct (persist d (store w)) as [[R|e] st] eqn:Hcall; simpl.
    + exists 1%nat. split; [lia|]. simpl. by rewrite Hcall.
    + destruct (IH {| cache := cache w;
                      observers := observers w;
                      mutationRetry := mutationRetry w;
                      now := now w;
                      store := st;
                      location := location w;
                      trace := trace w ++ [EvPersist d] |})
        as (attempts & Hk & Hst & _).
      exists (S attempts). split; [lia|]. split.
      * rewrite Hst. cbn [store]. by rewrite Nat.iter_succ_r, Hcall.
      * by intros [R HR].
Qed.

(** When every attempt is rejected, so is the mutation. *)
Lemma executeMutation_all_rejected
    (persist : Val → Store → Settled Err (Nullable Val) * Store)
    (mutationFn : Val → World → Settled Err (Nullable Val) * World) (retry : nat)
    (d : Val) (w : World) :
  (∀ d w, mutationFn d w
          = ((persist d (store w)).1,
             {| cache := cache w;
                observers := observers w;
                mutationRetry := mutationRetry w;
                now := now w;
                store := (persist d (store w)).2;
                location := location w;
                trace := trace w ++ [EvPersist d] |})) →
  (∀ st, ∃ e, (persist d st).1 = Rejected e) →
  ∃ e w', executeMutation retry mutationFn d w = (Rejected e, w').
Proof.
  intros Hfn Hall. revert w. induction retry as [|retry IH]; intros w; simpl;
    rewrite Hfn; destruct (Hall (store w)) as [e He]; rewrite He.
  - by eexists _, _.
  - apply IH.
Qed.

End MutationFacts.

Section WriteFacts.
Context {Val Err Store : Type} `{Countable Val}.
Import ReactQuery Next Runtime Manager.
Local Abbreviation World := (World Val Err Store).
Local Abbreviation Props := (Props (list Prim) Val Err Store).

Lemma callSetFiltersValues_spec (p : Props) (d : Val) (w : World) :
  callSetFiltersValues p d w
  = ((setFiltersValues p d (store w)).1,
     {| cache := cache w;
        observers := observers w;
        mutationRetry := mutationRetry w;
        now := now w;
        store := (setFiltersValues p d (store w)).2;
        location := location w;
        trace := trace w ++ [EvPersist d] |}).
Proof. unfold callSetFiltersValues. by destruct (setFiltersValues p d (store w)). Qed.


Lemma handleSetFiltersInUrl_replace (p : Props) (router : Router) (v : Val) (w : World) :
  isReady router = true →
  handleSetFiltersInUrl p router (Defined v) w
  = replace
      (UrlObject (stripQuery (asPath router))
         (Defined (match queryTransformer p with Some t => t v | None => v end)))
      None None w.
Proof.
  intros Hready. unfold handleSetFiltersInUrl. rewrite Hready. simpl.
  by destruct (queryTransformer p).
Qed.

(** The reflection procedure touches the location and the trace only. *)
Lemma handleSetFiltersInUrl_frame (p : Props) (router : Router) (data : Nullable Val)
    (w : World) :
  cache (handleSetFiltersInUrl p router data w) = cache w
  ∧ observers (handleSetFiltersInUrl p router data w) = observers w
  ∧ store (handleSetFiltersInUrl p router data w) = store w
  ∧ now (handleSetFiltersInUrl p router data w) = now w
  ∧ mutationRetry (handleSetFiltersInUrl p router data w) = mutationRetry w.
Proof. unfold handleSetFiltersInUrl. by destruct (negb (isReady router) || Js.not data). Qed.

Lemma handleSetFiltersInUrl_cache (p : Props) (router : Router) (data : Nullable Val)
    (w : World) :
  cache (handleSetFiltersInUrl p router data w) = cache w.
Proof. apply handleSetFiltersInUrl_frame. Qed.


(** A write, by the attempts of its persistence call: after a rejection the
    world is the one the attempts have left; after a success the success
    handler has run on it. *)
Lemma setFilters_spec (p : Props) (router : Router) (d : Val) (w : World) :
  setFilters p router d w
  = match executeMutation (mutationRetry w) (callSetFiltersValues p) d w with
    | (Fulfilled R, w') =>
        ({| mutation_status := MutationSuccess; mutation_data := R; mutation_error := None |},
         handleSetFiltersInUrl p router R (invalidateQueries (filtersFilterKey p) w'))
    | (Rejected e, w') =>
        ({| mutation_status := MutationError; mutation_data := Undefined;
            mutation_error := Some e |}, w')
    end.
Proof. done. Qed.

Lemma setFilters_fulfilled (p : Props) (router : Router) (d : Val) (w : World)
    (R : Nullable Val) (st : Store) :
  setFiltersValues p d (store w) = (Fulfilled R, st) →
  setFilters p router d w
  = ({| mutation_status := MutationSuccess; mutation_data := R; mutation_error := None |},
     handleSetFiltersInUrl p router R
       (invalidateQueries (filtersKey p ++ [PStr "filters"])
          {| cache := cache w;
             observers := observers w;
             mutationRetry := mutationRetry w;
             now := now w;
             store := st;
             location := location w;
             trace := trace w ++ [EvPersist d] |})).
Proof.
  intros Hcall. rewrite setFilters_spec.
  assert (Hexec : callSetFiltersValues p d w
                  = (Fulfilled R,
                     {| cache := cache w;
                        observers := observers w;
                        mutationRetry := mutationRetry w;
                        now := now w;
                        store := st;
                        location := location w;
                        trace := trace w ++ [EvPersist d] |})).
  { by rewrite callSetFiltersValues_spec, Hcall. }
  by rewrite (executeMutation_fulfilled _ _ _ _ _ _ Hexec).
Qed.

(** The attempts of a write that is rejected. *)
Lemma setFilters_attempts (p : Props) (router : Router) (d : Val) (w : World) (e : Err) :
  mutation_error (setFilters p router d w).1 = Some e →
  mutation_status (setFilters p router d w).1 = MutationError
  ∧ cache (setFilters p router d w).2 = cache w
  ∧ observers (setFilters p router d w).2 = observers w
  ∧ location (setFilters p router d w).2 = location w
  ∧ trace (setFilters p router d w).2
    = trace w ++ replicate (S (mutationRetry w)) (EvPersist d)
  ∧ ∃ st, (setFiltersValues p d st).1 = Rejected e.
Proof.
  rewrite setFilters_spec.
  destruct (executeMutation_persist (setFiltersValues p) (callSetFiltersValues p)
              (mutationRetry w) d w (callSetFiltersValues_spec p))
    as (Hc & Ho & _ & _ & Hl & attempts & _ & Ht & Hrej).
  destruct (executeMutation (mutationRetry w) (callSetFiltersValues p) d w)
    as [[R|e'] w'] eqn:Hexec; simpl in *; [done|].
  intros [= ->]. destruct (Hrej e eq_refl) as [-> Hst]. done.
Qed.

(** C2, as amended: when [setFiltersValues] rejects with [e].  With a client
    that does not retry mutations (the library's default, which the client
    the provider constructs has), [setFilters] leaves the cache and the
    location as they were, has called the persistence function once and
    nothing else (no invalidation, no navigation, no second attempt), and the
    handle's [error] is [e].  With any client, whenever the write ends with
    an error in the handle: the attempts made are the one call and all the
    retries the client's defaults ask for, each on the store the attempt
    before has left, the error is the one the last of them was rejected
    with, the cache and the location are as they were, nothing is
    invalidated and no navigation is made; and the write ends so when every
    attempt is rejected. *)
Theorem setFilters_rejected (p : Props) (router : Router) (d : Val) (w : World)
    (e : Err) (st : Store) :
  setFiltersValues p d (store w) = (Rejected e, st) →
  (mutationRetry w = 0%nat →
   cache (setFilters p router d w).2 = cache w
   ∧ location (setFilters p router d w).2 = location w
   ∧ store (setFilters p router d w).2 = st
   ∧ trace (setFilters p router d w).2 = trace w ++ [EvPersist d]
   ∧ mutation_status (setFilters p router d w).1 = MutationError
   ∧ mutation_error (setFilters p router d w).1 = Some e)
  ∧ (∀ e', mutation_error (setFilters p router d w).1 = Some e' →
       mutation_status (setFilters p router d w).1 = MutationError
       ∧ cache (setFilters p router d w).2 = cache w
       ∧ location (setFilters p router d w).2 = location w
       ∧ trace (setFilters p router d w).2
         = trace w ++ replicate (S (mutationRetry w)) (EvPersist d)
       ∧ store (setFilters p router d w).2
         = Nat.iter (S (mutationRetry w)) (λ st, (setFiltersValues p d st).2) (store w)
       ∧ (setFiltersValues p d
            (Nat.iter (mutationRetry w) (λ st, (setFiltersValues p d st).2) (store w))).1
         = Rejected e')
  ∧ ((∀ st', ∃ e', (setFiltersValues p d st').1 = Rejected e') →
     ∃ e', mutation_error (setFilters p router d w).1 = Some e').
Proof.
  intros Hcall. split; [|split].
  - intros Hretry. rewrite setFilters_spec, Hretry, executeMutation_once.
    rewrite callSetFiltersValues_spec, Hcall. simpl. by repeat split.
  - intros e'. rewrite setFilters_spec.
    destruct (executeMutation_world (setFiltersValues p) (callSetFiltersValues p)
                (mutationRetry w) d w (callSetFiltersValues_spec p))
      as (attempts & Hk & Hexec & _ & Hall).
    rewrite Hexec.
    destruct ((setFiltersValues p d
                 (Nat.iter (attempts - 1) (λ st, (setFiltersValues p d st).2) (store w))).1)
      as [R|e''] eqn:Hlast; cbn [fst snd mutation_status mutation_error]; [done|].
    intros [= ->]. rewrite (Hall e' eq_refl) in Hlast |- *.
    replace (S (mutationRetry w) - 1)%nat with (mutationRetry w) in Hlast by lia.
    by repeat split.
  - intros Hall.
    destruct (executeMutation_all_rejected (setFiltersValues p) (callSetFiltersValues p)
                (mutationRetry w) d w (callSetFiltersValues_spec p) Hall)
      as (e' & w' & Hexec).
    rewrite setFilters_spec, Hexec. by eexists.
Qed.

(** Both mutations run the same persistence call and the same success
    handler; they differ in the value they persist. *)
Lemma resetFilters_target (p : Props) (router : Router) (callback : option (Val → Val))
    (w : World) :
  resetFilters p router callback w
  = setFilters p router
      (match callback with
       | Some callback => callback (initialFilters p)
       | None => initialFilters p
       end) w.
Proof.
  unfold resetFilters, setFilters, mutate.
  set (d := match callback with Some callback => callback (initialFilters p)
                               | None => initialFilters p end).
  assert (Hexec : ∀ retry w0,
            executeMutation retry
              (λ callback, callSetFiltersValues p
                 (match callback with
                  | Some callback => callback (initialFilters p)
                  | None => initialFilters p
                  end)) callback w0
            = executeMutation retry (callSetFiltersValues p) d w0).
  { induction retry as [|retry IH]; intros w0; simpl; fold d;
      destruct (callSetFiltersValues p d w0) as [[R|e] w']; done. }
  by rewrite Hexec.
Qed.

(** The events of a write: the attempts of the persistence call, all on the
    same value, then those of the success handler. *)
Lemma setFilters_trace (p : Props) (router : Router) (d : Val) (w : World) :
  ∃ rest, trace (setFilters p router d w).2 = trace w ++ EvPersist d :: rest
          ∧ ∀ x, EvPersist x ∈ rest → x = d.
Proof.
  rewrite setFilters_spec.
  destruct (executeMutation_persist (setFiltersValues p) (callSetFiltersValues p)
              (mutationRetry w) d w (callSetFiltersValues_spec p))
    as (_ & _ & _ & _ & _ & attempts & [Hk _] & Ht & _).
  destruct attempts as [|attempts]; [lia|]. simpl in Ht.
  assert (Hrep : ∀ x, EvPersist x ∈ replicate attempts (@EvPersist Val d) → x = d).
  { intros x [Hx _]%elem_of_replicate. by injection Hx. }
  destruct (executeMutation (mutationRetry w) (callSetFiltersValues p) d w)
    as [[R|e] w'] eqn:Hexec; simpl in *.
  - unfold handleSetFiltersInUrl.
    destruct (negb (isReady router) || Js.not R); simpl; rewrite Ht.
    + eexists. rewrite <- app_assoc. simpl. split; [done|].
      intros x [Hx|Hx]%elem_of_app; [by apply Hrep|].
      apply elem_of_cons in Hx as [Hx|Hx]; [done|].
      apply list_elem_of_fmap in Hx as (key & Hx & _). done.
    + eexists. rewrite <- !app_assoc. simpl. split; [done|].
      intros x [Hx|Hx]%elem_of_app; [by apply Hrep|].
      apply elem_of_cons in Hx as [Hx|Hx]; [done|].
      apply elem_of_app in Hx as [Hx|Hx].
      * apply list_elem_of_fmap in Hx as (key & Hx & _). done.
      * apply list_elem_of_singleton in Hx. done.
  - rewrite Ht. by eexists.
Qed.

(** The store after a write whose first attempt is the only one. *)
Lemma setFilters_store (p : Props) (router : Router) (d : Val) (w : World) :
  mutationRetry w = 0%nat
  ∨ (∃ R st, setFiltersValues p d (store w) = (Fulfilled R, st)) →
  store (setFilters p router d w).2 = (setFiltersValues p d (store w)).2.
Proof.
  intros [Hretry | (R & st & Hcall)].
  - rewrite setFilters_spec, Hretry, executeMutation_once, callSetFiltersValues_spec.
    destruct (setFiltersValues p d (store w)) as [[R|e] st]; simpl; [|done].
    by rewrite (proj1 (proj2 (proj2 (handleSetFiltersInUrl_frame _ _ _ _)))).
  - rewrite (setFilters_fulfilled _ _ _ _ _ _ Hcall), Hcall. simpl.
    by rewrite (proj1 (proj2 (proj2 (handleSetFiltersInUrl_frame _ _ _ _)))).
Qed.

(** The store after a write, whatever the attempts. *)
Lemma setFilters_store_attempts (p : Props) (router : Router) (d : Val) (w : World) :
  ∃ attempts,
    (1 ≤ attempts ≤ S (mutationRetry w))%nat
    ∧ store (setFilters p router d w).2
      = Nat.iter attempts (λ st, (setFiltersValues p d st).2) (store w).
Proof.
  rewrite setFilters_spec.
  destruct (executeMutation_store (setFiltersValues p) (callSetFiltersValues p)
              (mutationRetry w) d w (callSetFiltersValues_spec p))
    as (attempts & Hk & Hst & _).
  exists attempts. split; [done|].
  destruct (executeMutation (mutationRetry w) (callSetFiltersValues p) d w)
    as [[R|e] w'] eqn:Hexec; cbn [snd] in Hst |- *; [|done].
  by rewrite (proj1 (proj2 (proj2 (handleSetFiltersInUrl_frame _ _ _ _)))).
Qed.

(** C4: [resetFilters] with a transform [f] is [setFilters] on
    [f initialFilters], and without a transform [setFilters] on
    [initialFilters]: same handle state, same world (store, cache, location,
    trace); the value handed to the persistence function, in the first
    attempt and in every retry the client makes, is [f initialFilters],
    respectively [initialFilters]; the store is the one these calls leave,
    one after the other, which is the one the first call leaves when one
    attempt is all there is. *)
Theorem resetFilters_as_setFilters (p : Props) (router : Router) (w : World) (f : Val → Val) :
  resetFilters p router (Some f) w = setFilters p router (f (initialFilters p)) w
  ∧ resetFilters p router None w = setFilters p router (initialFilters p) w
  ∧ (∃ rest, trace (resetFilters p router (Some f) w).2
             = trace w ++ EvPersist (f (initialFilters p)) :: rest
             ∧ ∀ x, EvPersist x ∈ rest → x = f (initialFilters p))
  ∧ (∃ rest, trace (resetFilters p router None w).2
             = trace w ++ EvPersist (initialFilters p) :: rest
             ∧ ∀ x, EvPersist x ∈ rest → x = initialFilters p)
  ∧ (mutationRetry w = 0%nat
     ∨ (∃ R st, setFiltersValues p (f (initialFilters p)) (store w) = (Fulfilled R, st)) →
     store (resetFilters p router (Some f) w).2
     = (setFiltersValues p (f (initialFilters p)) (store w)).2)
  ∧ (mutationRetry w = 0%nat
     ∨ (∃ R st, setFiltersValues p (initialFilters p) (store w) = (Fulfilled R, st)) →
     store (resetFilters p router None w).2
     = (setFiltersValues p (initialFilters p) (store w)).2)
  ∧ (∃ attempts,
       (1 ≤ attempts ≤ S (mutationRetry w))%nat
       ∧ store (resetFilters p router (Some f) w).2
         = Nat.iter attempts (λ st, (setFiltersValues p (f (initialFilters p)) st).2)
             (store w))
  ∧ (∃ attempts,
       (1 ≤ attempts ≤ S (mutationRetry w))%nat
       ∧ store (resetFilters p router None w).2
         = Nat.iter attempts (λ st, (setFiltersValues p (initialFilters p) st).2)
             (store w)).
Proof.
  rewrite !resetFilters_target.
  split; [done|]. split; [done|].
  split; [apply setFilters_trace|]. split; [apply setFilters_trace|].
  split; [apply setFilters_store|]. split; [apply setFilters_store|].
  split; apply setFilters_store_attempts.
Qed.


End WriteFacts.

Section WriteExamples.
Import ReactQuery Next Runtime Manager.

Lemma setFilters_rejected_witness :
  cache (setFilters Sample.cartPropsOffline Sample.routerReady Sample.page2 Sample.world0).2
    = cache Sample.world0
  ∧ location (setFilters Sample.cartPropsOffline Sample.routerReady Sample.page2 Sample.world0).2
    = location Sample.world0
  ∧ store (setFilters Sample.cartPropsOffline Sample.routerReady Sample.page2 Sample.world0).2
    = None
  ∧ trace (setFilters Sample.cartPropsOffline Sample.routerReady Sample.page2 Sample.world0).2
    = trace Sample.world0 ++ [EvPersist Sample.page2]
  ∧ mutation_status
      (setFilters Sample.cartPropsOffline Sample.routerReady Sample.page2 Sample.world0).1
    = MutationError
  ∧ mutation_error
      (setFilters Sample.cartPropsOffline Sample.routerReady Sample.page2 Sample.world0).1
    = Some "offline"%string.
Proof.
  apply (setFilters_rejected Sample.cartPropsOffline Sample.routerReady Sample.page2
           Sample.world0 "offline"%string None); reflexivity.
Defined.

(** The claim C2 as it is written does not hold with every client: the hook
    gives [useMutation] no [retry] option, so with a client whose defaults
    ask for one retry a write that is rejected with [busy] is attempted
    again, and when the second attempt succeeds the queries are invalidated
    and the URL is changed, and no error is in the handle. *)
Lemma setFilters_retried_counterexample :
  setFiltersValues Sample.cartPropsBusy Sample.page2 (store Sample.worldRetrying)
    = (Rejected "busy"%string, Some ∅)
  ∧ trace (setFilters Sample.cartPropsBusy Sample.routerReady Sample.page2
             Sample.worldRetrying).2
    = [EvPersist Sample.page2; EvPersist Sample.page2;
       EvInvalidate [PStr "cart"; PStr "filters"];
       EvReplace (UrlObject "/cart"%string (Defined Sample.page2)) None None]
  ∧ location (setFilters Sample.cartPropsBusy Sample.routerReady Sample.page2
                Sample.worldRetrying).2
    = UrlObject "/cart"%string (Defined Sample.page2)
  ∧ location (setFilters Sample.cartPropsBusy Sample.routerReady Sample.page2
                Sample.worldRetrying).2
    ≠ location Sample.worldRetrying
  ∧ mutation_error (setFilters Sample.cartPropsBusy Sample.routerReady Sample.page2
                      Sample.worldRetrying).1
    = None.
Proof. repeat split. discriminate. Qed.

(** With retries the store is not the one the first attempt has left. *)
Example resetFilters_retried_store :
  store (resetFilters Sample.cartPropsBusy Sample.routerReady None Sample.worldRetrying).2
    = Some Sample.cartInitialFilters
  ∧ (setFiltersValues Sample.cartPropsBusy Sample.cartInitialFilters
       (store Sample.worldRetrying)).2
    = Some ∅.
Proof. split; reflexivity. Qed.


(** A write that succeeds in its second attempt, with a client that retries
    once. *)
Example setFilters_resolved_retried :
  mutation_status (setFilters Sample.cartPropsBusy Sample.routerReady Sample.page2
                     Sample.worldRetrying).1
    = MutationSuccess
  ∧ store (setFilters Sample.cartPropsBusy Sample.routerReady Sample.page2
             Sample.worldRetrying).2
    = Some Sample.page2.
Proof. split; reflexivity. Qed.


End WriteExamples.

(** ** The URL-reflection procedure, in its three builds *)

Section ReflectionFacts.
Context {Val Err Store : Type} `{Countable Val}.
Import ReactQuery Next Runtime Api.

(** C7, as amended: [handleSetFiltersInUrl] returns at once, leaving the
    world (its location and its trace of navigation calls included) as it
    was, when the router is not ready or when the data is absent,
    [undefined] or [null]; in filters_manager.tsx, in
    filters_manager.service.ts and in the cjs build with [querySetter]. *)
Theorem handleSetFiltersInUrl_noop
    (p : Props (list Prim) Val Err Store) (ps : Props string Val Err Store)
    (fieldsOf : Val → Obj)
    (querySetter : option (Nullable Val → World Val Err Store → World Val Err Store))
    (scrollAfterUpdateQuery : option bool)
    (router : Router) (data : Nullable Val) (w : World Val Err Store) :
  isReady router = false ∨ data = Undefined ∨ data = Null →
  Manager.handleSetFiltersInUrl p router data w = w
  ∧ Service.handleSetFiltersInUrl fieldsOf ps router data w = w
  ∧ ManagerCjs.handleSetFiltersInUrl p querySetter scrollAfterUpdateQuery router data w = w.
Proof.
  intros Hskip.
  assert (Hguard : negb (isReady router) || Js.not data = true).
  { destruct Hskip as [->|[->| ->]]; [done | apply orb_true_r | apply orb_true_r]. }
  unfold Manager.handleSetFiltersInUrl, Service.handleSetFiltersInUrl,
    ManagerCjs.handleSetFiltersInUrl.
  by rewrite Hguard.
Qed.

End ReflectionFacts.

Section ReflectionExamples.
Import ReactQuery Next Runtime Api.

Lemma handleSetFiltersInUrl_noop_witness :
  Manager.handleSetFiltersInUrl Sample.cartProps Sample.routerNotReady
    (Defined Sample.page2) Sample.world0 = Sample.world0
  ∧ Service.handleSetFiltersInUrl id (Sample.servicePropsFor "cart") Sample.routerNotReady
      (Defined Sample.page2) Sample.world0 = Sample.world0
  ∧ ManagerCjs.handleSetFiltersInUrl Sample.cartProps None (Some true) Sample.routerNotReady
      (Defined Sample.page2) Sample.world0 = Sample.world0.
Proof.
  apply (handleSetFiltersInUrl_noop Sample.cartProps (Sample.servicePropsFor "cart") id
           None (Some true) Sample.routerNotReady (Defined Sample.page2) Sample.world0).
  left. reflexivity.
Defined.

(** The claim C7 as it is written does not hold for a FilterSet that is
    empty: an object without fields is not [undefined], the guard lets it
    pass and the procedure navigates, in filters_manager.tsx to the path with
    the empty object as its query, in filters_manager.service.ts to the path
    without a query. *)
Lemma handleSetFiltersInUrl_empty_counterexample :
  location (Manager.handleSetFiltersInUrl Sample.cartProps Sample.routerWithQuery
              (Defined ∅) Sample.world0)
    = UrlObject "/cart"%string (Defined ∅)
  ∧ trace (Manager.handleSetFiltersInUrl Sample.cartProps Sample.routerWithQuery
             (Defined ∅) Sample.world0)
    = [EvReplace (UrlObject "/cart"%string (Defined ∅)) None None]
  ∧ Manager.handleSetFiltersInUrl Sample.cartProps Sample.routerWithQuery
      (Defined ∅) Sample.world0
    ≠ Sample.world0
  ∧ trace (Service.handleSetFiltersInUrl id (Sample.servicePropsFor "cart")
             Sample.routerWithQuery (Defined ∅) Sample.world0)
    = [EvReplace (UrlString "/cart"%string) (Some (UrlString "/cart"%string)) (Some false)].
Proof.
  split; [reflexivity|]. split; [reflexivity|]. split; [|vm_compute; reflexivity].
  intros Heq. apply (f_equal trace) in Heq. discriminate Heq.
Qed.

End ReflectionExamples.

(** ** One render of filters_manager.tsx *)

Section RenderFacts.
Context {Val Err Store : Type} `{Countable Val}.
Import ReactQuery Next Runtime Manager.
Local Abbreviation World := (World Val Err Store).
Local Abbreviation Props := (Props (list Prim) Val Err Store).

(** Starting a fetch leaves the data of the result as it is. *)
Lemma createResult_startFetch (select : Nullable Val → Nullable Val)
    (fn : Store → Settled Err (Nullable Val)) (st : Store) (q : Query Val Err Store) :
  data (createResult select (startFetch fn st q)) = data (createResult select q).
Proof. done. Qed.

(** A query that has a function keeps it. *)
Lemma adopt_id (fn fn' : Store → Settled Err (Nullable Val)) (q : Query Val Err Store) :
  queryFn q = Some fn' → adopt fn q = q.
Proof. intros Hfn. destruct q. simpl in *. by subst. Qed.

(** What an observer finds and does under a key depends on the query cached
    there, the clock and the store only. *)
Lemma observe_frame (observed : option (QueryKey Val)) (wasEnabled : bool)
    (key : QueryKey Val) (o : ObserverOptions Val Err Store) (w w' : World) :
  cache w' !! key = cache w !! key → now w' = now w → store w' = store w →
  findQuery key o w' = findQuery key o w
  ∧ fetchDue observed wasEnabled key o w' = fetchDue observed wasEnabled key o w
  ∧ observe observed wasEnabled key o w' = observe observed wasEnabled key o w.
Proof.
  intros Hcache Hnow Hstore.
  assert (Hfind : findQuery key o w' = findQuery key o w).
  { unfold findQuery. by rewrite Hcache, Hnow. }
  assert (Hdue : fetchDue observed wasEnabled key o w' = fetchDue observed wasEnabled key o w).
  { unfold fetchDue. by rewrite Hfind, Hnow. }
  split; [done|]. split; [done|]. unfold observe. by rewrite Hdue, Hfind, Hstore.
Qed.

Lemma observe_data (observed : option (QueryKey Val)) (wasEnabled : bool)
    (key : QueryKey Val) (o : ObserverOptions Val Err Store) (w : World)
    (select : Nullable Val → Nullable Val) :
  data (createResult select (observe observed wasEnabled key o w))
  = data (createResult select (findQuery key o w)).
Proof. unfold observe. by destruct (fetchDue observed wasEnabled key o w). Qed.

(** The query an observer finds has a function. *)
Lemma findQuery_queryFn (key : QueryKey Val) (o : ObserverOptions Val Err Store) (w : World) :
  is_Some (queryFn (findQuery key o w)).
Proof. unfold findQuery. simpl. by eexists. Qed.

Lemma observe_queryFn (observed : option (QueryKey Val)) (wasEnabled : bool)
    (key : QueryKey Val) (o : ObserverOptions Val Err Store) (w : World) :
  is_Some (queryFn (observe observed wasEnabled key o w)).
Proof.
  unfold observe. destruct (fetchDue observed wasEnabled key o w); simpl; by eexists.
Qed.

Lemma variantsKey_ne_filtersQueryKey (p : Props) (router : Router) :
  variantsKey p ≠ filtersQueryKey p router.
Proof. unfold variantsKey, filtersQueryKey. intros Heq%app_inv_head. discriminate. Qed.

Lemma variantsKey_ne_valuesKey (p : Props) (filtersData : Nullable Val) :
  variantsKey p ≠ valuesKey p filtersData.
Proof.
  unfold variantsKey, valuesKey. intros Heq%app_inv_head.
  destruct filtersData; discriminate.
Qed.

Lemma filtersQueryKey_ne_valuesKey (p : Props) (router : Router) (filtersData : Nullable Val) :
  filtersQueryKey p router ≠ valuesKey p filtersData.
Proof. unfold filtersQueryKey, valuesKey. intros Heq%app_inv_head. discriminate. Qed.

(** The three keys of a hook differ from each other. *)
Ltac keys_differ :=
  first [ apply variantsKey_ne_filtersQueryKey
        | apply variantsKey_ne_valuesKey
        | apply filtersQueryKey_ne_valuesKey
        | apply not_eq_sym; first [ apply variantsKey_ne_filtersQueryKey
                                  | apply variantsKey_ne_valuesKey
                                  | apply filtersQueryKey_ne_valuesKey ] ].

(** One render, in one equation: the three observers act on the world the
    render started from, each under its own key. *)
Lemma useFilters_spec (p : Props) (router : Router) (inst : Instance Val) (w : World) :
  let qv := observe (variantsObserver inst) true (variantsKey p) (variantsOptions p) w in
  let qf := observe (filtersObserver inst) true (filtersQueryKey p router)
              (filtersOptions p router) w in
  let filtersData := data (createResult (filtersSelect p) qf) in
  let qd := observe (valuesObserver inst) (valuesEnabled inst) (valuesKey p filtersData)
              (valuesObserverOptions p filtersData) w in
  useFilters p router inst w
  = ({| appliedFiltersCount := appliedFiltersCountState inst;
        values := createResult (default id (select (valuesOptions p))) qd;
        initialFilters_ := initialFilters p;
        filters := createResult (filtersSelect p) qf;
        variants := createResult id qv |},
     {| appliedFiltersCountState := appliedFiltersCountState inst;
        effectDeps := effectDeps inst;
        variantsObserver := Some (variantsKey p);
        filtersObserver := Some (filtersQueryKey p router);
        valuesObserver := Some (valuesKey p filtersData);
        valuesEnabled := valuesEnabledOf p |},
     {| cache := <[valuesKey p filtersData := qd]>
                   (<[filtersQueryKey p router := qf]> (<[variantsKey p := qv]> (cache w)));
        observers :=
          subscribe (valuesObserver inst) (valuesEnabled inst) (valuesKey p filtersData)
            (valuesEnabledOf p)
            (subscribe (filtersObserver inst) true (filtersQueryKey p router) true
               (subscribe (variantsObserver inst) true (variantsKey p) true (observers w)));
        mutationRetry := mutationRetry w;
        now := now w;
        store := store w;
        location := location w;
        trace := trace w
                 ++ (if fetchDue (variantsObserver inst) true (variantsKey p)
                          (variantsOptions p) w
                     then [EvFetch (variantsKey p)] else [])
                 ++ (if fetchDue (filtersObserver inst) true (filtersQueryKey p router)
                          (filtersOptions p router) w
                     then [EvFetch (filtersQueryKey p router)] else [])
                 ++ (if fetchDue (valuesObserver inst) (valuesEnabled inst)
                          (valuesKey p filtersData) (valuesObserverOptions p filtersData) w
                     then [EvFetch (valuesKey p filtersData)] else []) |}).
Proof.
  intros qv qf filtersData qd. unfold useFilters, useQuery.
  set (w1 := {| cache := <[variantsKey p := _]> (cache w) |}).
  destruct (observe_frame (filtersObserver inst) true (filtersQueryKey p router)
              (filtersOptions p router) w w1) as (_ & Hdue1 & Hobs1).
  { simpl. rewrite lookup_insert_ne by keys_differ. done. }
  { done. }
  { done. }
  rewrite Hobs1, Hdue1. fold qf. cbn [opt_select filtersOptions]. fold filtersData.
  set (w2 := {| cache := <[filtersQueryKey p router := _]> (cache w1) |}).
  destruct (observe_frame (valuesObserver inst) (valuesEnabled inst) (valuesKey p filtersData)
              (valuesObserverOptions p filtersData) w w2) as (_ & Hdue2 & Hobs2).
  { simpl. repeat rewrite lookup_insert_ne by keys_differ. done. }
  { done. }
  { done. }
  rewrite Hobs2, Hdue2. fold qd. simpl. by rewrite <- !app_assoc.
Qed.

(** The filters result of a render. *)
Lemma useFilters_filters (p : Props) (router : Router) (inst : Instance Val) (w : World) :
  filters (useFilters p router inst w).1.1
  = createResult (filtersSelect p)
      (observe (filtersObserver inst) true (filtersQueryKey p router)
         (filtersOptions p router) w).
Proof. by rewrite useFilters_spec. Qed.


(** After a render the cache holds the three queries as the observers have
    left them. *)
Lemma useFilters_cache_filters (p : Props) (router : Router) (inst : Instance Val) (w : World) :
  cache (useFilters p router inst w).2 !! filtersQueryKey p router
  = Some (observe (filtersObserver inst) true (filtersQueryKey p router)
            (filtersOptions p router) w).
Proof.
  rewrite useFilters_spec. simpl.
  rewrite lookup_insert_ne by keys_differ. by rewrite lookup_insert_eq.
Qed.

Lemma useFilters_cache_variants (p : Props) (router : Router) (inst : Instance Val) (w : World) :
  cache (useFilters p router inst w).2 !! variantsKey p
  = Some (observe (variantsObserver inst) true (variantsKey p) (variantsOptions p) w).
Proof.
  rewrite useFilters_spec. simpl.
  repeat rewrite lookup_insert_ne by keys_differ. by rewrite lookup_insert_eq.
Qed.

Lemma useFilters_cache_values (p : Props) (router : Router) (inst : Instance Val) (w : World) :
  cache (useFilters p router inst w).2
    !! valuesKey p (data (filters (useFilters p router inst w).1.1))
  = Some (observe (valuesObserver inst) (valuesEnabled inst)
            (valuesKey p (data (filters (useFilters p router inst w).1.1)))
            (valuesObserverOptions p (data (filters (useFilters p router inst w).1.1))) w).
Proof. rewrite useFilters_spec. simpl. by rewrite lookup_insert_eq. Qed.

(** A render writes under its three keys only. *)
Lemma useFilters_cache_other (p : Props) (router : Router) (inst : Instance Val) (w : World)
    (key : QueryKey Val) :
  key ≠ variantsKey p → key ≠ filtersQueryKey p router →
  key ≠ valuesKey p (data (filters (useFilters p router inst w).1.1)) →
  cache (useFilters p router inst w).2 !! key = cache w !! key.
Proof.
  rewrite useFilters_spec. simpl. intros Hv Hf Hd.
  by rewrite !lookup_insert_ne by done.
Qed.


Lemma useFilters_observers (p : Props) (router : Router) (inst : Instance Val) (w : World) :
  filtersObserver (useFilters p router inst w).1.2 = Some (filtersQueryKey p router)
  ∧ variantsObserver (useFilters p router inst w).1.2 = Some (variantsKey p).
Proof. by rewrite useFilters_spec. Qed.



End RenderFacts.

Section RenderExamples.
Import ReactQuery Next Runtime Manager.


(** Property 3 of the spec: the query [?page=2&sortDirection=desc] with a
    parser that fills the other fields from the defaults. *)
Example filters_reader_with_query :
  data (filters (useFilters Sample.cartProps Sample.routerWithQuery mount Sample.world0).1.1)
  = Defined (<["page" := One (VStr "2")]>
               (<["sortDirection" := One (VStr "desc")]> Sample.cartInitialFilters)).
Proof. vm_compute. reflexivity. Qed.


End RenderExamples.

(** ** What a write touches *)

Section WriteFrameFacts.
Context {Val Err Store : Type} `{Countable Val}.
Import ReactQuery Next Runtime Api.
Local Abbreviation World := (World Val Err Store).

(** The success handler of both builds: every query is as it was, or its
    key is matched and it is marked invalid, fetched again when it has an
    observer; the fetches started are of matched keys. *)
Lemma invalidateQueries_lookup (filterKey : list Prim) (w : World) (key : QueryKey Val) :
  cache (invalidateQueries filterKey w) !! key
  = (λ q, if partialMatchKey key filterKey
          then if isActive (observers w) key
               then (refetch (now w) (store w) (invalidate q)).1 else invalidate q
          else q) <$> cache w !! key.
Proof. apply lookup_invalidateQueries. Qed.

Lemma invalidateQueries_frame (filterKey : list Prim) (w : World) :
  observers (invalidateQueries filterKey w) = observers w
  ∧ store (invalidateQueries filterKey w) = store w
  ∧ now (invalidateQueries filterKey w) = now w
  ∧ location (invalidateQueries filterKey w) = location w
  ∧ mutationRetry (invalidateQueries filterKey w) = mutationRetry w.
Proof. done. Qed.


Lemma Service_callSetFiltersValues_spec (p : Props string Val Err Store) (d : Val)
    (w : World) :
  Service.callSetFiltersValues p d w
  = ((setFiltersValues p d (store w)).1,
     {| cache := cache w;
        observers := observers w;
        mutationRetry := mutationRetry w;
        now := now w;
        store := (setFiltersValues p d (store w)).2;
        location := location w;
        trace := trace w ++ [EvPersist d] |}).
Proof. unfold Service.callSetFiltersValues. by destruct (setFiltersValues p d (store w)). Qed.

Lemma Service_handleSetFiltersInUrl_frame (fieldsOf : Val → Obj)
    (p : Props string Val Err Store) (router : Router) (data : Nullable Val) (w : World) :
  cache (Service.handleSetFiltersInUrl fieldsOf p router data w) = cache w
  ∧ observers (Service.handleSetFiltersInUrl fieldsOf p router data w) = observers w
  ∧ store (Service.handleSetFiltersInUrl fieldsOf p router data w) = store w
  ∧ now (Service.handleSetFiltersInUrl fieldsOf p router data w) = now w
  ∧ mutationRetry (Service.handleSetFiltersInUrl fieldsOf p router data w) = mutationRetry w.
Proof.
  unfold Service.handleSetFiltersInUrl. by destruct (negb (isReady router) || Js.not data).
Qed.

Lemma Service_setFilters_spec (fieldsOf : Val → Obj) (p : Props string Val Err Store)
    (router : Router) (d : Val) (w : World) :
  Service.setFilters fieldsOf p router d w
  = match executeMutation (mutationRetry w) (Service.callSetFiltersValues p) d w with
    | (Fulfilled R, w') =>
        ({| mutation_status := MutationSuccess; mutation_data := R; mutation_error := None |},
         Service.handleSetFiltersInUrl fieldsOf p router R
           (invalidateQueries (Service.filtersFilterKey p) w'))
    | (Rejected e, w') =>
        ({| mutation_status := MutationError; mutation_data := Undefined;
            mutation_error := Some e |}, w')
    end.
Proof. done. Qed.

Lemma Service_resetFilters_target (fieldsOf : Val → Obj) (p : Props string Val Err Store)
    (router : Router) (callback : option (Val → Val)) (w : World) :
  Service.resetFilters fieldsOf p router callback w
  = Service.setFilters fieldsOf p router
      (match callback with
       | Some callback => callback (initialFilters p)
       | None => initialFilters p
       end) w.
Proof.
  unfold Service.resetFilters, Service.setFilters, mutate.
  set (d := match callback with Some callback => callback (initialFilters p)
                               | None => initialFilters p end).
  assert (Hexec : ∀ retry w0,
            executeMutation retry
              (λ callback, Service.callSetFiltersValues p
                 (match callback with
                  | Some callback => callback (initialFilters p)
                  | None => initialFilters p
                  end)) callback w0
            = executeMutation retry (Service.callSetFiltersValues p) d w0).
  { induction retry as [|retry IH]; intros w0; simpl; fold d;
      destruct (Service.callSetFiltersValues p d w0) as [[R|e] w']; done. }
  by rewrite Hexec.
Qed.

(** A write of filters_manager.tsx leaves the queries its filter key does
    not match as they are. *)
Lemma Manager_setFilters_other (p : Props (list Prim) Val Err Store) (router : Router)
    (d : Val) (w : World) (key : QueryKey Val) :
  partialMatchKey key (Manager.filtersFilterKey p) = false →
  cache (Manager.setFilters p router d w).2 !! key = cache w !! key.
Proof.
  intros Hno. rewrite setFilters_spec.
  destruct (executeMutation_persist (setFiltersValues p) (Manager.callSetFiltersValues p)
              (mutationRetry w) d w (callSetFiltersValues_spec p))
    as (Hc & _).
  destruct (executeMutation (mutationRetry w) (Manager.callSetFiltersValues p) d w)
    as [[R|e] w'] eqn:Hexec; simpl in *; [|by rewrite Hc].
  rewrite handleSetFiltersInUrl_cache, invalidateQueries_lookup, Hno, Hc.
  by destruct (cache w !! key).
Qed.

Lemma Service_setFilters_other (fieldsOf : Val → Obj) (p : Props string Val Err Store)
    (router : Router) (d : Val) (w : World) (key : QueryKey Val) :
  partialMatchKey key (Service.filtersFilterKey p) = false →
  cache (Service.setFilters fieldsOf p router d w).2 !! key = cache w !! key.
Proof.
  intros Hno. rewrite Service_setFilters_spec.
  destruct (executeMutation_persist (setFiltersValues p) (Service.callSetFiltersValues p)
              (mutationRetry w) d w (Service_callSetFiltersValues_spec p))
    as (Hc & _).
  destruct (executeMutation (mutationRetry w) (Service.callSetFiltersValues p) d w)
    as [[R|e] w'] eqn:Hexec; simpl in Hc |- *; [|by rewrite Hc].
  rewrite (proj1 (Service_handleSetFiltersInUrl_frame _ _ _ _ _)).
  rewrite invalidateQueries_lookup, Hno, Hc.
  by destruct (cache w !! key).
Qed.


End WriteFrameFacts.

(** ** The applied-filters count *)

Section CountFacts.
Context {Val Err Store : Type} `{Countable Val}.
Import ReactQuery Next Runtime Manager.
Local Abbreviation World := (World Val Err Store).
Local Abbreviation Props := (Props (list Prim) Val Err Store).

(** A render publishes the state cell as it stands; the effect of that
    render shows in the next one. *)
Lemma cycle_published (p : Props) (router : Router) (inst : Instance Val) (w : World) :
  appliedFiltersCount (cycle p router inst w).1.1 = appliedFiltersCountState inst.
Proof. unfold cycle. by rewrite useFilters_spec. Qed.

Lemma cycle_instance (p : Props) (router : Router) (inst : Instance Val) (w : World) :
  (cycle p router inst w).1.2
  = useEffect p (data (filters (cycle p router inst w).1.1)) (useFilters p router inst w).1.2.
Proof. unfold cycle. by rewrite useFilters_spec. Qed.

Lemma cycle_out (p : Props) (router : Router) (inst : Instance Val) (w : World) :
  (cycle p router inst w).1.1 = (useFilters p router inst w).1.1
  ∧ (cycle p router inst w).2 = (useFilters p router inst w).2.
Proof. unfold cycle. by rewrite useFilters_spec. Qed.

Lemma useFilters_instance (p : Props) (router : Router) (inst : Instance Val) (w : World) :
  appliedFiltersCountState (useFilters p router inst w).1.2 = appliedFiltersCountState inst
  ∧ effectDeps (useFilters p router inst w).1.2 = effectDeps inst.
Proof. by rewrite useFilters_spec. Qed.

(** Only an evaluation cycle with the function supplied writes the cell. *)
Lemma perform_count_zero (s : Instance Val * World) (a : Action) :
  (∀ p, propsOf a = Some p → getAppliedFiltersCount p = None) →
  appliedFiltersCountState s.1 = 0%Z →
  appliedFiltersCountState (perform s a).1 = 0%Z.
Proof.
  intros Hnone Hzero. destruct a as [p router| | | |]; simpl; try done.
  specialize (Hnone p eq_refl).
  pose proof (cycle_instance p router s.1 s.2) as Hc.
  destruct (cycle p router s.1 s.2) as [[out inst'] w']. cbn [fst snd] in Hc |- *.
  subst inst'.
  unfold useEffect. rewrite Hnone.
  by destruct (bool_decide _).
Qed.

Lemma run_count_zero (actions : list Action) (s : Instance Val * World) :
  Forall (λ a, ∀ p, propsOf a = Some p → getAppliedFiltersCount p = None) actions →
  appliedFiltersCountState s.1 = 0%Z →
  appliedFiltersCountState (run actions s).1 = 0%Z.
Proof.
  intros Hall. revert s. induction Hall as [|a actions Ha _ IH]; intros s Hzero; [done|].
  simpl. apply IH. by apply perform_count_zero.
Qed.

(** C8, as amended: in a cycle in which [getAppliedFiltersCount] is supplied
    and the data of the filters result ([filters.data]) differs from the one
    the effect last ran with (or the effect has not run yet), the effect
    stores [getAppliedFiltersCount (filters.data ?? initialFilters)], which
    is the count the next render publishes; and as long as no evaluation
    since the mount was given the function, the published count is 0,
    whatever the filters are. *)
Theorem appliedFiltersCount_tracks (p : Props) (router : Router) (inst : Instance Val)
    (w : World) :
  (∀ f, getAppliedFiltersCount p = Some f →
     (∀ prevData prevFn, effectDeps inst = Some (prevData, prevFn) →
        prevData ≠ data (filters (cycle p router inst w).1.1)) →
     ∀ (p' : Props) router' (w' : World),
       appliedFiltersCount (cycle p' router' (cycle p router inst w).1.2 w').1.1
       = call f (coalesce (data (filters (cycle p router inst w).1.1)) (initialFilters p)))
  ∧ (∀ (actions : list (@Action Val Err Store)) (w0 : World),
       Forall (λ a, ∀ p0, propsOf a = Some p0 → getAppliedFiltersCount p0 = None) actions →
       ∀ (p' : Props) router',
         appliedFiltersCount
           (cycle p' router' (run actions (mount, w0)).1 (run actions (mount, w0)).2).1.1
         = 0%Z).
Proof.
  split.
  - intros f Hf Hchanged p' router' w'.
    rewrite cycle_published, cycle_instance. unfold useEffect.
    rewrite (proj2 (useFilters_instance _ _ _ _)), Hf. simpl.
    rewrite bool_decide_eq_false_2; [done|].
    intros Hdeps. by apply (Hchanged _ _ Hdeps).
  - intros actions w0 Hall p' router'.
    rewrite cycle_published. by apply run_count_zero.
Qed.

End CountFacts.

Section CountExamples.
Import ReactQuery Next Runtime Manager.

Lemma appliedFiltersCount_tracks_witness :
  appliedFiltersCount
    (cycle Sample.cartPropsCounting Sample.routerReady
       (cycle Sample.cartPropsCounting Sample.routerReady mount Sample.world0).1.2
       Sample.world0).1.1
  = 4%Z.
Proof.
  pose proof (appliedFiltersCount_tracks Sample.cartPropsCounting Sample.routerReady
                mount Sample.world0) as [Hset _].
  apply (Hset Sample.countApplied eq_refl).
  intros prevData prevFn Hdeps. discriminate Hdeps.
Defined.

(** The claim C8 as it is written fails in two ways.  Without the function:
    once a render has been given [getAppliedFiltersCount], a later render
    without it still publishes the count of before.  With the function: the
    effect depends on [filters.data], not on the resolved filters
    [filters.data ?? initialFilters]; while the filters are loading
    ([filters.data] is [undefined], the router not being ready) a change of
    [initialFilters] from four fields to one changes the resolved filters
    and leaves the count at 4, in the next render and in the one after. *)
Lemma appliedFiltersCount_stale_counterexample :
  (getAppliedFiltersCount Sample.cartProps = None
   ∧ appliedFiltersCount
       (cycle Sample.cartProps Sample.routerReady
          (run [ActCycle Sample.cartPropsCounting Sample.routerReady]
             (mount, Sample.world0)).1
          (run [ActCycle Sample.cartPropsCounting Sample.routerReady]
             (mount, Sample.world0)).2).1.1
     = 4%Z)
  ∧ (data (filters
             (cycle Sample.cartPropsCounting Sample.routerNotReady mount Sample.world0).1.1)
     = Undefined
     ∧ data (filters
               (cycle Sample.cartPropsCountingPage Sample.routerNotReady
                  (run [ActCycle Sample.cartPropsCounting Sample.routerNotReady]
                     (mount, Sample.world0)).1
                  (run [ActCycle Sample.cartPropsCounting Sample.routerNotReady]
                     (mount, Sample.world0)).2).1.1)
       = Undefined
     ∧ call Sample.countApplied (initialFilters Sample.cartPropsCounting) = 4%Z
     ∧ call Sample.countApplied (initialFilters Sample.cartPropsCountingPage) = 1%Z
     ∧ appliedFiltersCount
         (cycle Sample.cartPropsCountingPage Sample.routerNotReady
            (run [ActCycle Sample.cartPropsCounting Sample.routerNotReady;
                  ActCycle Sample.cartPropsCountingPage Sample.routerNotReady]
               (mount, Sample.world0)).1
            (run [ActCycle Sample.cartPropsCounting Sample.routerNotReady;
                  ActCycle Sample.cartPropsCountingPage Sample.routerNotReady]
               (mount, Sample.world0)).2).1.1
       = 4%Z
     ∧ appliedFiltersCount
         (cycle Sample.cartPropsCountingPage Sample.routerNotReady
            (run [ActCycle Sample.cartPropsCounting Sample.routerNotReady;
                  ActCycle Sample.cartPropsCountingPage Sample.routerNotReady;
                  ActCycle Sample.cartPropsCountingPage Sample.routerNotReady]
               (mount, Sample.world0)).1
            (run [ActCycle Sample.cartPropsCounting Sample.routerNotReady;
                  ActCycle Sample.cartPropsCountingPage Sample.routerNotReady;
                  ActCycle Sample.cartPropsCountingPage Sample.routerNotReady]
               (mount, Sample.world0)).2).1.1
       = 4%Z).
Proof. vm_compute. repeat split. Qed.

End CountExamples.

(** ** The variants query *)

Section VariantsFacts.
Context {Val Err Store : Type} `{Countable Val}.
Import ReactQuery Next Runtime Manager.
Local Abbreviation World := (World Val Err Store).
Local Abbreviation Props := (Props (list Prim) Val Err Store).

(** The variants result of a render, and the fetches the render starts, in
    the order of the three [useQuery]. *)
Lemma useFilters_variants (p : Props) (router : Router) (inst : Instance Val) (w : World) :
  variants (useFilters p router inst w).1.1
  = createResult id (observe (variantsObserver inst) true (variantsKey p) (variantsOptions p) w).
Proof. by rewrite useFilters_spec. Qed.







End VariantsFacts.

Section VariantsExamples.
Import ReactQuery Next Runtime Manager.



End VariantsExamples.

(** ** The data of a successful filters result *)

Section SuccessFacts.
Context {Val Err Store : Type} `{Countable Val}.
Import ReactQuery Next Runtime Manager.
Local Abbreviation World := (World Val Err Store).
Local Abbreviation Props := (Props (list Prim) Val Err Store).
Local Abbreviation Cache := (gmap (QueryKey Val) (Query Val Err Store)).
Local Abbreviation hasData q := (state_status q = Success → isDefined (state_data q) = true).

Lemma successHasData_insert (cache : Cache) (key : QueryKey Val) (q : Query Val Err Store) :
  successHasData cache → hasData q → successHasData (<[key := q]> cache).
Proof.
  intros Hcache Hq key' q'. rewrite lookup_insert. case_decide.
  - intros [= <-]. done.
  - apply Hcache.
Qed.

Lemma buildQuery_hasData (now : nat) (initialData : Nullable Val)
    (fn : option (Store → Settled Err (Nullable Val))) :
  hasData (buildQuery now initialData fn).
Proof. simpl. by destruct (isDefined initialData). Qed.

Lemma adopt_hasData (fn : Store → Settled Err (Nullable Val)) (q : Query Val Err Store) :
  hasData q → hasData (adopt fn q).
Proof. done. Qed.

Lemma invalidate_hasData (q : Query Val Err Store) : hasData q → hasData (invalidate q).
Proof. done. Qed.

Lemma startFetch_hasData (fn : Store → Settled Err (Nullable Val)) (st : Store)
    (q : Query Val Err Store) :
  hasData q → hasData (startFetch fn st q).
Proof. intros Hq. simpl. by destruct (dataUpdatedAt q). Qed.

Lemma settle_hasData (now : nat) (q : Query Val Err Store) :
  hasData q → hasData (settle now q).
Proof.
  intros Hq. unfold settle. destruct (promise q) as [[[| |v]|e]|]; simpl; done.
Qed.

Lemma refetch_hasData (now : nat) (st : Store) (q : Query Val Err Store) :
  hasData q → hasData (refetch now st q).1.
Proof.
  intros Hq. unfold refetch.
  destruct (bool_decide (is_Some (promise q)) && _); cbn [fst].
  - by apply settle_hasData.
  - destruct (queryFn q) as [fn|]; cbn [fst]; [|done].
    by apply settle_hasData, startFetch_hasData.
Qed.

Lemma findQuery_hasData (key : QueryKey Val) (o : ObserverOptions Val Err Store) (w : World) :
  successHasData (cache w) → hasData (findQuery key o w).
Proof.
  intros Hw. unfold findQuery. apply adopt_hasData.
  destruct (cache w !! key) as [q|] eqn:Hlook; cbn [default].
  - by apply (Hw key).
  - apply buildQuery_hasData.
Qed.

Lemma observe_hasData (observed : option (QueryKey Val)) (wasEnabled : bool)
    (key : QueryKey Val) (o : ObserverOptions Val Err Store) (w : World) :
  successHasData (cache w) → hasData (observe observed wasEnabled key o w).
Proof.
  intros Hw. unfold observe. destruct (fetchDue observed wasEnabled key o w).
  - by apply startFetch_hasData, findQuery_hasData.
  - by apply findQuery_hasData.
Qed.

Lemma useFilters_successHasData (p : Props) (router : Router) (inst : Instance Val) (w : World) :
  successHasData (cache w) → successHasData (cache (useFilters p router inst w).2).
Proof.
  intros Hw. rewrite useFilters_spec. cbn [snd cache].
  repeat (apply successHasData_insert; [|by apply observe_hasData]). done.
Qed.

Lemma invalidateQueries_successHasData (filterKey : list Prim) (w : World) :
  successHasData (cache w) → successHasData (cache (invalidateQueries filterKey w)).
Proof.
  intros Hcache key q. rewrite invalidateQueries_lookup.
  destruct (cache w !! key) as [q0|] eqn:Hq0; simpl; [|done].
  intros [= <-]. specialize (Hcache key q0 Hq0).
  destruct (partialMatchKey key filterKey); [|done].
  destruct (isActive (observers w) key); [|done].
  by apply refetch_hasData.
Qed.

Lemma setFilters_successHasData (p : Props) (router : Router) (d : Val) (w : World) :
  successHasData (cache w) → successHasData (cache (setFilters p router d w).2).
Proof.
  intros Hw. rewrite setFilters_spec.
  destruct (executeMutation_persist (setFiltersValues p) (Manager.callSetFiltersValues p)
              (mutationRetry w) d w (callSetFiltersValues_spec p))
    as (Hc & _).
  destruct (executeMutation (mutationRetry w) (Manager.callSetFiltersValues p) d w)
    as [[R|e] w'] eqn:Hexec; cbn [snd] in Hc |- *; [|by rewrite Hc].
  rewrite handleSetFiltersInUrl_cache. apply invalidateQueries_successHasData.
  by rewrite Hc.
Qed.

Lemma perform_successHasData (s : Instance Val * World) (a : Action) :
  successHasData (cache s.2) → successHasData (cache (perform s a).2).
Proof.
  intros Hs. destruct a as [p router|key|p router d|p router callback|key d];
    cbn [perform].
  - pose proof (useFilters_successHasData p router s.1 s.2 Hs) as Hr.
    rewrite <- (proj2 (cycle_out p router s.1 s.2)) in Hr.
    by destruct (cycle p router s.1 s.2) as [[out inst'] w'].
  - cbn [snd settleQuery cache]. intros key' q. rewrite lookup_alter. case_decide.
    + destruct (cache s.2 !! key) as [q0|] eqn:Hq0; simpl; [|done].
      subst key'. intros [= <-]. apply settle_hasData. by apply (Hs key).
    + apply Hs.
  - by apply setFilters_successHasData.
  - cbn [snd]. rewrite resetFilters_target. by apply setFilters_successHasData.
  - cbn [snd]. unfold setQueryData. destruct (isDefined d) eqn:Hd; [|done]. simpl.
    by apply successHasData_insert.
Qed.

Lemma run_successHasData (actions : list Action) (s : Instance Val * World) :
  successHasData (cache s.2) → successHasData (cache (run actions s).2).
Proof.
  revert s. induction actions as [|a actions IH]; intros s Hs; [done|].
  simpl. apply IH. by apply perform_successHasData.
Qed.

(** C10: in every state the hook and the other users of the client can
    bring about from an empty cache, a filters result with the status
    [success] has data that is neither [null] nor [undefined]; where the
    cached data is [null], [select] has put [initialFilters] in its place. *)
Theorem filters_success_has_data (actions : list (@Action Val Err Store)) (w0 : World)
    (p : Props) (router : Router) :
  cache w0 = ∅ →
  (status (filters (useFilters p router (run actions (mount, w0)).1
                      (run actions (mount, w0)).2).1.1) = Success →
   ∃ v, data (filters (useFilters p router (run actions (mount, w0)).1
                         (run actions (mount, w0)).2).1.1) = Defined v)
  ∧ (∀ q, cache (run actions (mount, w0)).2 !! filtersQueryKey p router = Some q →
       state_data q = Null →
       data (filters (useFilters p router (run actions (mount, w0)).1
                        (run actions (mount, w0)).2).1.1) = Defined (initialFilters p)).
Proof.
  intros Hempty.
  assert (Hinv : successHasData (cache (run actions (mount, w0)).2)).
  { apply run_successHasData. simpl. rewrite Hempty. intros key q Hq.
    by rewrite lookup_empty in Hq. }
  rewrite useFilters_filters. split.
  - intros Hstatus.
    pose proof (observe_hasData (filtersObserver (run actions (mount, w0)).1) true
                  (filtersQueryKey p router) (filtersOptions p router) _ Hinv Hstatus)
      as Hdef.
    unfold createResult. cbn [data]. rewrite Hdef. unfold filtersSelect. by eexists.
  - intros q Hq Hnull. rewrite observe_data. unfold findQuery. rewrite Hq. simpl.
    rewrite Hnull. done.
Qed.

End SuccessFacts.

Section SuccessExamples.
Import ReactQuery Next Runtime Manager.

Lemma filters_success_has_data_witness :
  ∃ v,
    data (filters
            (useFilters Sample.cartProps Sample.routerReady
               (run [ActCycle Sample.cartProps Sample.routerReady;
                     ActSettle (filtersQueryKey Sample.cartProps Sample.routerReady)]
                  (mount, Sample.world0)).1
               (run [ActCycle Sample.cartProps Sample.routerReady;
                     ActSettle (filtersQueryKey Sample.cartProps Sample.routerReady)]
                  (mount, Sample.world0)).2).1.1)
    = Defined v.
Proof.
  pose proof (filters_success_has_data
                [ActCycle Sample.cartProps Sample.routerReady;
                 ActSettle (filtersQueryKey Sample.cartProps Sample.routerReady)]
                Sample.world0 Sample.cartProps Sample.routerReady eq_refl) as [Hdata _].
  apply Hdata. vm_compute. reflexivity.
Defined.

End SuccessExamples.

(** ** Two hooks on one cache client *)

Section NamespaceFacts.
Context {Val Err Store : Type} `{Countable Val}.
Import ReactQuery Next Runtime Api.
Local Abbreviation World := (World Val Err Store).

(** A key of the hook is its primitive segments and its end, in one way. *)
Lemma key_shape_inj (ps1 ps2 : list Prim) (t1 t2 : QueryKey Val) :
  Manager.isKeyEnd t1 → Manager.isKeyEnd t2 →
  (SPrim <$> ps1) ++ t1 = (SPrim <$> ps2) ++ t2 → ps1 = ps2 ∧ t1 = t2.
Proof.
  intros Ht1 Ht2. revert ps2. induction ps1 as [|a ps1 IH]; intros [|b ps2] Heq; simpl in Heq.
  - done.
  - subst t1. destruct Ht1 as [Ht1|[v Ht1]]; discriminate Ht1.
  - subst t2. destruct Ht2 as [Ht2|[v Ht2]]; discriminate Ht2.
  - injection Heq as -> Heq. destruct (IH ps2 Heq) as [-> ->]. done.
Qed.

(** A filter key of primitives matches a key of the hook when it is a
    beginning of its primitive segments. *)
Lemma key_shape_match (ps filterKey : list Prim) (t : QueryKey Val) :
  Manager.isKeyEnd t →
  partialMatchKey ((SPrim <$> ps) ++ t) filterKey = true → filterKey `prefix_of` ps.
Proof.
  intros Ht [rest Hrest]%partialMatchKey_prefix. revert ps Hrest.
  induction filterKey as [|f filterKey IH]; intros ps Hrest.
  - apply prefix_nil.
  - destruct ps as [|a ps]; simpl in Hrest.
    + subst t. destruct Ht as [Ht|[v Ht]]; discriminate Ht.
    + injection Hrest as -> Hrest. apply prefix_cons. by apply IH.
Qed.

Lemma prefix_snoc_cases {A} (l m : list A) (x : A) :
  l `prefix_of` m ++ [x] → l `prefix_of` m ∨ l = m ++ [x].
Proof.
  intros [k Hk]. destruct k as [|y k _] using rev_ind.
  - right. by rewrite app_nil_r in Hk.
  - left. rewrite app_assoc in Hk. apply app_inj_tail in Hk as [-> _]. by exists k.
Qed.

(** The three shapes of the keys of a hook with namespace [k]. *)
Lemma Manager_ownedKey_shape (k : list Prim) (key : QueryKey Val) :
  @Manager.ownedKey Val Err Store k key →
  ∃ ps t, key = (SPrim <$> ps) ++ t ∧ Manager.isKeyEnd t
          ∧ ((ps = k ++ [PStr "variants"] ∧ t = [])
             ∨ ((∃ r, ps = (k ++ [PStr "filters"]) ++ [PBool r]) ∧ t ≠ [])
             ∨ (ps = k ∧ t ≠ [])).
Proof.
  intros (p & router & d & <- & [-> | [-> | ->]]).
  - exists (filtersKey p ++ [PStr "variants"]), []. split; [|split].
    + unfold Manager.variantsKey. by rewrite fmap_app, app_nil_r.
    + by left.
    + by left.
  - exists ((filtersKey p ++ [PStr "filters"]) ++ [PBool (isReady router)]),
           [SVal (Some (initialFilters p))]. split; [|split].
    + unfold Manager.filtersQueryKey. by rewrite !fmap_app, <- !app_assoc.
    + right. by eexists.
    + right. left. split; [by eexists | done].
  - exists (filtersKey p), [segOfData d]. split; [|split].
    + done.
    + right. destruct d; by eexists.
    + right. right. done.
Qed.

Lemma Manager_owns (p : Props (list Prim) Val Err Store) (router : Router)
    (filtersData : Nullable Val) :
  @Manager.ownedKey Val Err Store (filtersKey p) (Manager.variantsKey p)
  ∧ @Manager.ownedKey Val Err Store (filtersKey p) (Manager.filtersQueryKey p router)
  ∧ @Manager.ownedKey Val Err Store (filtersKey p) (Manager.valuesKey p filtersData).
Proof.
  repeat split; exists p, router, filtersData; (split; [done|]); auto.
Qed.

(** The string namespaces of filters_manager.service.ts *)

Lemma list_ascii_of_string_app (s t : string) :
  list_ascii_of_string (s +:+ t) = list_ascii_of_string s ++ list_ascii_of_string t.
Proof. induction s as [|c s IH]; simpl; [done|]. by rewrite <- IH. Qed.

Lemma string_app_inv_tail (s1 s2 t : string) : s1 +:+ t = s2 +:+ t → s1 = s2.
Proof.
  intros Heq%(f_equal list_ascii_of_string).
  rewrite !list_ascii_of_string_app in Heq. apply app_inv_tail in Heq.
  apply (f_equal string_of_list_ascii) in Heq.
  by rewrite !string_of_list_ascii_of_string in Heq.
Qed.

Lemma filters_tag_ne_variants_tag (s1 s2 : string) :
  s1 +:+ "filters" ≠ s2 +:+ "variants".
Proof.
  intros Heq%(f_equal list_ascii_of_string).
  rewrite !list_ascii_of_string_app in Heq.
  change (list_ascii_of_string "variants")
    with (list_ascii_of_string "v" ++ list_ascii_of_string "ariants") in Heq.
  rewrite app_assoc in Heq. apply app_inj_2 in Heq as [_ Heq]; [|done].
  discriminate Heq.
Qed.

(** C6, as amended: two hooks on one cache client.  With [QueryKey]
    namespaces that differ and of which neither begins with the other
    followed by ['filters'], and with string namespaces that differ and of
    which the first is not the second followed by ['filters']: no key of one
    hook (variants, filters, data values) is a key of the other, the renders
    and the settled fetches of the second hook leave the queries of the first
    as they are, and so do the invalidations of its two write operations. *)
Theorem namespaces_isolated
    (pA pB : Props (list Prim) Val Err Store) (sA sB : Props string Val Err Store)
    (fieldsOf : Val → Obj) :
  (filtersKey pA ≠ filtersKey pB →
   ¬ (filtersKey pA ++ [PStr "filters"]) `prefix_of` filtersKey pB →
   ¬ (filtersKey pB ++ [PStr "filters"]) `prefix_of` filtersKey pA →
   (∀ key, @Manager.ownedKey Val Err Store (filtersKey pA) key →
           @Manager.ownedKey Val Err Store (filtersKey pB) key → False)
   ∧ (∀ key, @Manager.ownedKey Val Err Store (filtersKey pA) key →
        ∀ router inst (w : World),
          cache (Manager.cycle pB router inst w).2 !! key = cache w !! key)
   ∧ (∀ key keyB, @Manager.ownedKey Val Err Store (filtersKey pA) key →
        @Manager.ownedKey Val Err Store (filtersKey pB) keyB →
        ∀ w : World, cache (settleQuery keyB w) !! key = cache w !! key)
   ∧ (∀ key, @Manager.ownedKey Val Err Store (filtersKey pA) key →
        ∀ router d callback (w : World),
          cache (Manager.setFilters pB router d w).2 !! key = cache w !! key
          ∧ cache (Manager.resetFilters pB router callback w).2 !! key = cache w !! key))
  ∧ (filtersKey sA ≠ filtersKey sB →
     filtersKey sA ≠ filtersKey sB +:+ "filters" →
     (∀ key, @Service.ownedKey Val Err Store (filtersKey sA) key →
             @Service.ownedKey Val Err Store (filtersKey sB) key → False)
     ∧ (∀ key, @Service.ownedKey Val Err Store (filtersKey sA) key →
          ∀ router d callback (w : World),
            cache (Service.setFilters fieldsOf sB router d w).2 !! key = cache w !! key
            ∧ cache (Service.resetFilters fieldsOf sB router callback w).2 !! key
              = cache w !! key)).
Proof.
  split.
  - intros Hne HAB HBA.
    assert (Hdisjoint : ∀ key, @Manager.ownedKey Val Err Store (filtersKey pA) key →
              @Manager.ownedKey Val Err Store (filtersKey pB) key → False).
    { intros key (psA & tA & -> & HtA & HA)%Manager_ownedKey_shape
                 (psB & tB & Heq & HtB & HB)%Manager_ownedKey_shape.
      apply key_shape_inj in Heq as [-> ->]; [|done..].
      destruct HA as [[HpA HtA']|[[[rA HpA] HtA']|[HpA HtA']]],
               HB as [[HpB HtB']|[[[rB HpB] HtB']|[HpB HtB']]];
        try (by subst tB); rewrite HpA in HpB.
      - apply app_inj_tail in HpB as [HpB _]. by apply Hne.
      - apply app_inj_tail in HpB as [HpB _]. apply app_inj_tail in HpB as [HpB _].
        by apply Hne.
      - apply HAB. exists [PBool rA]. done.
      - apply HBA. exists [PBool rB]. done.
      - by apply Hne. }
    assert (Hwrite : ∀ key, @Manager.ownedKey Val Err Store (filtersKey pA) key →
              ∀ router d (w : World),
                cache (Manager.setFilters pB router d w).2 !! key = cache w !! key).
    { intros key Hkey router d w.
      apply Manager_setFilters_other, not_true_iff_false.
      apply Manager_ownedKey_shape in Hkey as (psA & tA & -> & HtA & HA).
      intros Hpre%key_shape_match; [|done]. unfold Manager.filtersFilterKey in Hpre.
      destruct HA as [[-> _]|[[[rA ->] _]|[-> _]]].
      - apply prefix_snoc_cases in Hpre as [Hpre|Heq]; [done|].
        apply app_inj_tail in Heq as [_ Heq]. discriminate Heq.
      - apply prefix_snoc_cases in Hpre as [Hpre|Heq].
        + apply prefix_snoc_cases in Hpre as [Hpre|Heq]; [done|].
          apply app_inj_tail in Heq as [Heq _]. by apply Hne.
        + apply app_inj_tail in Heq as [_ Heq]. discriminate Heq.
      - done. }
    split; [done|]. split; [|split].
    + intros key HA router inst w.
      rewrite (proj2 (cycle_out pB router inst w)).
      apply useFilters_cache_other; intros Heq; subst key; apply (Hdisjoint _ HA);
        first [ exact (proj1 (Manager_owns pB router Undefined))
              | exact (proj1 (proj2 (Manager_owns pB router Undefined)))
              | exact (proj2 (proj2 (Manager_owns pB router _))) ].
    + intros key keyB HA HB w. simpl.
      apply lookup_alter_ne. intros <-. by apply (Hdisjoint _ HA HB).
    + intros key HA router d callback w. split; [by apply Hwrite|].
      rewrite resetFilters_target. by apply Hwrite.
  - intros Hne Hfilters.
    assert (Hwrite : ∀ key, @Service.ownedKey Val Err Store (filtersKey sA) key →
              ∀ router d (w : World),
                cache (Service.setFilters fieldsOf sB router d w).2 !! key = cache w !! key).
    { intros key (p & router0 & d0 & Hp & Hkey) router d w.
      apply Service_setFilters_other, not_true_iff_false.
      intros [rest Hrest]%partialMatchKey_prefix.
      unfold Service.filtersFilterKey in Hrest. simpl in Hrest.
      destruct Hkey as [-> | [-> | ->]]; injection Hrest as Hrest.
      - rewrite Hp in Hrest. by apply (filters_tag_ne_variants_tag (filtersKey sB) (filtersKey sA)).
      - rewrite Hp in Hrest. apply string_app_inv_tail in Hrest. by apply Hne.
      - rewrite Hp in Hrest. by apply Hfilters. }
    split.
    + intros key (p & router & d & Hp & Hkey) (p' & router' & d' & Hp' & Hkey').
      destruct Hkey as [-> | [-> | ->]], Hkey' as [Hk | [Hk | Hk]];
        try discriminate Hk; injection Hk as Hk; rewrite ?Hp, ?Hp' in Hk.
      * by apply string_app_inv_tail in Hk.
      * by apply string_app_inv_tail in Hk.
      * done.
    + intros key HA router d callback w. split; [by apply Hwrite|].
      rewrite Service_resetFilters_target. by apply Hwrite.
Qed.

End NamespaceFacts.

Section NamespaceExamples.
Import ReactQuery Next Runtime Manager.

Lemma namespaces_isolated_witness :
  cache (setFilters (Sample.propsFor [PStr "orders"]) Sample.routerReady Sample.page2
           Sample.world0).2 !! variantsKey Sample.cartProps
  = cache Sample.world0 !! variantsKey Sample.cartProps.
Proof.
  pose proof (namespaces_isolated Sample.cartProps (Sample.propsFor [PStr "orders"])
                (Sample.servicePropsFor "cart") (Sample.servicePropsFor "orders") id)
    as [Hmanager _].
  assert (Hne : [PStr "cart"] ≠ [PStr "orders"]).
  { intros Heq. discriminate Heq. }
  assert (HAB : ¬ ([PStr "cart"] ++ [PStr "filters"]) `prefix_of` [PStr "orders"]).
  { intros [rest Hrest]. discriminate Hrest. }
  assert (HBA : ¬ ([PStr "orders"] ++ [PStr "filters"]) `prefix_of` [PStr "cart"]).
  { intros [rest Hrest]. discriminate Hrest. }
  destruct (Hmanager Hne HAB HBA) as (_ & _ & _ & Hwrite).
  assert (Hown : @ownedKey Obj Sample.Err Sample.Store [PStr "cart"]
                   (variantsKey Sample.cartProps)).
  { exists Sample.cartProps, Sample.routerReady, Undefined. split; [reflexivity|].
    left. reflexivity. }
  exact (proj1 (Hwrite _ Hown Sample.routerReady Sample.page2 None Sample.world0)).
Defined.

(** The claim C6 as it is written does not hold.  On one client, the hook
    with the namespace [['a']] and the hook with the namespace
    [['a', 'filters']] have different namespaces, and the filter key of a
    write of the first matches the variants key of the second: the write
    invalidates that query and, the second hook being mounted, fetches it
    again.  And the filters key of [['a']] is the data key of
    [['a', 'filters', true]] for the initial filters. *)
Lemma namespaces_collide_counterexample :
  filtersKey Sample.propsA ≠ filtersKey Sample.propsAFilters
  ∧ partialMatchKey (variantsKey Sample.propsAFilters) (filtersFilterKey Sample.propsA) = true
  ∧ isActive
      (observers (run [ActCycle Sample.propsAFilters Sample.routerReady;
                       ActSettle (variantsKey Sample.propsAFilters)]
                    (mount, Sample.world0)).2)
      (variantsKey Sample.propsAFilters)
    = true
  ∧ EvFetch (variantsKey Sample.propsAFilters)
    ∈ drop (length (trace (run [ActCycle Sample.propsAFilters Sample.routerReady;
                                ActSettle (variantsKey Sample.propsAFilters)]
                             (mount, Sample.world0)).2))
        (trace (setFilters Sample.propsA Sample.routerReady Sample.page2
                  (run [ActCycle Sample.propsAFilters Sample.routerReady;
                        ActSettle (variantsKey Sample.propsAFilters)]
                     (mount, Sample.world0)).2).2)
  ∧ filtersKey Sample.propsA ≠ filtersKey Sample.propsAFiltersTrue
  ∧ filtersQueryKey Sample.propsA Sample.routerReady
    = valuesKey Sample.propsAFiltersTrue (Defined Sample.cartInitialFilters).
Proof.
  split; [intros Heq; discriminate Heq|].
  split; [reflexivity|].
  split; [vm_compute; reflexivity|].
  split.
  { apply list_elem_of_lookup.
    exists 3%nat. vm_compute. reflexivity. }
  split; [intros Heq; discriminate Heq | reflexivity].
Qed.

End NamespaceExamples.

(** ** The round trip through the query-string codec *)

Section CodecFacts.
Import QueryString.
Local Abbreviation cfg := Service.queryStringConfig.

(** *** Encoding and decoding *)

Lemma allChars_app P s t : allChars P (s +:+ t) = allChars P s && allChars P t.
Proof. induction s as [|c s IH]; simpl; [done|]. by rewrite IH, andb_assoc. Qed.

Lemma encodeChar_safe c : allChars isSafe (encodeChar c) = true.
Proof. destruct c as [[] [] [] [] [] [] [] []]; vm_compute; reflexivity. Qed.

Lemma encode_safe s : allChars isSafe (encode s) = true.
Proof.
  induction s as [|c s IH]; simpl; [done|].
  by rewrite allChars_app, encodeChar_safe, IH.
Qed.

Lemma decode_plain c t : Ascii.eqb c "%" = false → decode (String c t) = String c (decode t).
Proof. intros Hc. destruct t as [|h [|l rest]]; simpl; by rewrite ?Hc. Qed.

Lemma decode_escape h l a b t :
  hexValue h = Some a → hexValue l = Some b →
  decode (String "%" (String h (String l t))) = String (ascii_of_nat (16 * a + b)) (decode t).
Proof. intros Hh Hl. cbn [decode]. rewrite Hh, Hl. done. Qed.

Lemma escape_digits c :
  isUnreserved c = false →
  hexValue (hexDigit (nat_of_ascii c / 16)) = Some (nat_of_ascii c / 16)
  ∧ hexValue (hexDigit (nat_of_ascii c mod 16)) = Some (nat_of_ascii c mod 16)
  ∧ ascii_of_nat (16 * (nat_of_ascii c / 16) + nat_of_ascii c mod 16) = c.
Proof.
  destruct c as [[] [] [] [] [] [] [] []]; vm_compute; intros Hc;
    first [discriminate Hc | repeat split].
Qed.

Lemma unreserved_not_percent c : isUnreserved c = true → Ascii.eqb c "%" = false.
Proof.
  destruct c as [[] [] [] [] [] [] [] []]; vm_compute; intros Hc;
    first [discriminate Hc | reflexivity].
Qed.

Lemma decode_encodeChar c t : decode (encodeChar c +:+ t) = String c (decode t).
Proof.
  unfold encodeChar. destruct (isUnreserved c) eqn:Hc.
  - change (decode (String c t) = String c (decode t)).
    apply decode_plain. by apply unreserved_not_percent.
  - destruct (escape_digits c Hc) as (Hh & Hl & Hback).
    change (decode (String "%" (String (hexDigit (nat_of_ascii c / 16))
              (String (hexDigit (nat_of_ascii c mod 16)) t))) = String c (decode t)).
    rewrite (decode_escape _ _ _ _ t Hh Hl). by rewrite Hback.
Qed.

Lemma append_cons c (s t : string) : String c s +:+ t = String c (s +:+ t).
Proof. reflexivity. Qed.

Lemma append_assoc (s t u : string) : (s +:+ t) +:+ u = s +:+ (t +:+ u).
Proof. induction s as [|c s IH]; [done|]. by rewrite !append_cons, IH. Qed.

Lemma append_nil_r (s : string) : s +:+ "" = s.
Proof. induction s as [|c s IH]; [done|]. by rewrite append_cons, IH. Qed.

Lemma decode_encode_app s t : decode (encode s +:+ t) = s +:+ decode t.
Proof.
  induction s as [|c s IH]; [done|].
  cbn [encode]. by rewrite append_assoc, decode_encodeChar, IH.
Qed.

Lemma decode_encode s : decode (encode s) = s.
Proof.
  rewrite <- (append_nil_r (encode s)), decode_encode_app.
  apply append_nil_r.
Qed.

(** *** The bytes of an encoded text, and splitting at a separator *)

Lemma allChars_impl (P Q : ascii → bool) s :
  (∀ c, P c = true → Q c = true) → allChars P s = true → allChars Q s = true.
Proof.
  intros HPQ. induction s as [|c s IH]; simpl; [done|].
  intros [Hc Hs]%andb_true_iff. by rewrite (HPQ c Hc), IH.
Qed.

Lemma safe_isNot d c : isSafe d = false → isSafe c = true → isNot d c = true.
Proof.
  intros Hd Hc. unfold isNot. destruct (Ascii.eqb c d) eqn:Heq; [|done].
  apply Ascii.eqb_eq in Heq. congruence.
Qed.

Lemma encode_isNot d s : isSafe d = false → allChars (isNot d) (encode s) = true.
Proof.
  intros Hd. apply (allChars_impl isSafe); [|apply encode_safe].
  intros c. by apply safe_isNot.
Qed.

Lemma splitOnFirst_app c s t :
  allChars (isNot c) s = true → splitOnFirst c (s +:+ String c t) = (s, Some t).
Proof.
  induction s as [|a s IH].
  - intros _. simpl. by rewrite Ascii.eqb_refl.
  - rewrite append_cons. simpl. intros [Ha Hs]%andb_true_iff.
    unfold isNot in Ha. apply negb_true_iff in Ha. rewrite Ha, (IH Hs). done.
Qed.

Lemma replacePlus_id s : allChars (isNot "+") s = true → replacePlus s = s.
Proof.
  induction s as [|a s IH]; simpl; [done|].
  intros [Ha Hs]%andb_true_iff. unfold isNot in Ha. apply negb_true_iff in Ha.
  by rewrite Ha, (IH Hs).
Qed.

Lemma splitPieces_app c x y :
  splitPieces c (x +:+ String c y) = ((splitPieces c x).1, (splitPieces c x).2 ++ split c y).
Proof.
  induction x as [|a x IH].
  - simpl. rewrite Ascii.eqb_refl. unfold split. by destruct (splitPieces c y).
  - rewrite append_cons. simpl. rewrite IH.
    destruct (splitPieces c x) as [p ps]. simpl. by destruct (Ascii.eqb a c).
Qed.

Lemma split_app c x y : split c (x +:+ String c y) = split c x ++ split c y.
Proof.
  unfold split at 1 2. rewrite splitPieces_app. by destruct (splitPieces c x).
Qed.

Lemma split_free c x : allChars (isNot c) x = true → split c x = [x].
Proof.
  unfold split. induction x as [|a x IH]; simpl; [done|].
  intros [Ha Hx]%andb_true_iff. unfold isNot in Ha. apply negb_true_iff in Ha.
  rewrite Ha. specialize (IH Hx). destruct (splitPieces c x) as [p ps].
  by injection IH as -> ->.
Qed.

Lemma stripBrackets_app k : stripBrackets (k +:+ "[]") = Some k.
Proof.
  induction k as [|a k IH]; [done|].
  rewrite append_cons. cbn [stripBrackets]. rewrite IH.
  rewrite bool_decide_eq_false_2; [done|].
  intros Heq. injection Heq as _ Heq. destruct k as [|b [|b' k]]; discriminate.
Qed.

(** *** One parameter *)

Lemma parseParameter_bracket acc k v :
  parseParameter cfg acc (encode k +:+ "[]=" +:+ encode v)
  = parserForArrayFormat cfg (k +:+ "[]") (VStr v) acc.
Proof.
  unfold parseParameter.
  rewrite bool_decide_eq_false_2 by (destruct (encode k); discriminate).
  rewrite replacePlus_id.
  2:{ rewrite !allChars_app, !encode_isNot by done. done. }
  change (encode k +:+ "[]=" +:+ encode v)
    with (encode k +:+ ("[]" +:+ String "=" (encode v))).
  rewrite <- append_assoc, splitOnFirst_app.
  2:{ rewrite allChars_app, encode_isNot by done. done. }
  by rewrite decode_encode_app, decode_encode.
Qed.

Lemma parseParameter_scalar acc k v :
  parseParameter cfg acc (encode k +:+ "=" +:+ encode v)
  = parserForArrayFormat cfg k (VStr v) acc.
Proof.
  unfold parseParameter.
  rewrite bool_decide_eq_false_2 by (destruct (encode k); discriminate).
  rewrite replacePlus_id.
  2:{ rewrite !allChars_app, !encode_isNot by done. done. }
  change (encode k +:+ "=" +:+ encode v) with (encode k +:+ String "=" (encode v)).
  rewrite splitOnFirst_app by (by apply encode_isNot).
  by rewrite !decode_encode.
Qed.

(** *** The parameters of one field *)

Lemma encoderForArrayFormat_fold k xs res :
  fold_left (encoderForArrayFormat cfg k) xs res
  = res ++ (bracketParam k <$> omap echoScalar xs).
Proof.
  revert res. induction xs as [|x xs IH]; intros res; simpl.
  - by rewrite app_nil_r.
  - rewrite IH. destruct x as [| |s|n|[]]; simpl; try done.
    + destruct (bool_decide (s = "")) eqn:Hs.
      * apply bool_decide_eq_true in Hs as ->. done.
      * rewrite bool_decide_eq_false_2.
        2:{ intros [= ->]. by apply bool_decide_eq_false in Hs. }
        by rewrite <- app_assoc.
    + by rewrite <- app_assoc.
    + by rewrite <- app_assoc.
    + by rewrite <- app_assoc.
Qed.

Lemma parse_concat options ps acc :
  fold_left (parseParameter options) (split "&" (String.concat "&" ps)) acc
  = fold_left (λ acc p, fold_left (parseParameter options) (split "&" p) acc) ps acc.
Proof.
  revert acc. induction ps as [|x [|y ps] IH]; intros acc.
  - done.
  - done.
  - change (String.concat "&" (x :: y :: ps))
      with (x +:+ String "&" (String.concat "&" (y :: ps))).
    rewrite split_app, fold_left_app, IH. done.
Qed.

Lemma parse_pieces_free options ps acc :
  Forall (λ p, allChars (isNot "&") p = true) ps →
  fold_left (λ acc p, fold_left (parseParameter options) (split "&" p) acc) ps acc
  = fold_left (parseParameter options) ps acc.
Proof.
  intros Hps. revert acc. induction Hps as [|p ps Hp _ IH]; intros acc; [done|].
  simpl. by rewrite (split_free _ _ Hp), IH.
Qed.

Lemma bracketParam_free k s : allChars (isNot "&") (bracketParam k s) = true.
Proof. unfold bracketParam. rewrite !allChars_app, !encode_isNot by done. done. Qed.

Lemma parse_many_go k ss vs (acc : Obj) :
  fold_left (parseParameter cfg) (bracketParam k <$> ss) (<[k := Many vs]> acc)
  = <[k := Many (vs ++ (VStr <$> ss))]> acc.
Proof.
  revert vs. induction ss as [|s ss IH]; intros vs; simpl.
  - by rewrite app_nil_r.
  - unfold bracketParam at 2. rewrite parseParameter_bracket.
    unfold parserForArrayFormat. simpl. rewrite stripBrackets_app, lookup_insert_eq.
    simpl. rewrite insert_insert_eq, IH, <- app_assoc. done.
Qed.

Lemma parse_many k ss (acc : Obj) :
  acc !! k = None →
  fold_left (parseParameter cfg) (bracketParam k <$> ss) acc
  = match ss with
    | [] => acc
    | _ => <[k := Many (VStr <$> ss)]> acc
    end.
Proof.
  intros Hfree. destruct ss as [|s ss]; [done|]. simpl.
  unfold bracketParam at 2. rewrite parseParameter_bracket.
  unfold parserForArrayFormat. simpl. rewrite stripBrackets_app, Hfree.
  by rewrite parse_many_go.
Qed.

Lemma parse_scalar_field k s (acc : Obj) :
  stripBrackets k = None →
  fold_left (parseParameter cfg) (split "&" (encode k +:+ "=" +:+ encode s)) acc
  = <[k := One (VStr s)]> acc.
Proof.
  intros Hk. rewrite split_free.
  2:{ rewrite !allChars_app, !encode_isNot by done. done. }
  simpl. rewrite parseParameter_scalar. unfold parserForArrayFormat. simpl.
  by rewrite Hk.
Qed.

Lemma fieldStep_spec (acc : Obj) k f :
  acc !! k = None → stripBrackets k = None → shouldFilter cfg f = false →
  fieldStep cfg acc (k, f) = match echoField f with
                         | Some f' => <[k := f']> acc
                         | None => acc
                         end.
Proof.
  intros Hfree Hk Hkeep. unfold fieldStep. simpl.
  destruct f as [[| |s|n|b]|xs]; simpl in *; try discriminate Hkeep.
  - destruct (bool_decide (s = "")) eqn:Hs.
    + apply bool_decide_eq_true in Hs as ->. discriminate Hkeep.
    + simpl. by apply parse_scalar_field.
  - by apply parse_scalar_field.
  - rewrite (parse_scalar_field k (toString (VBool b))) by done. done.
  - rewrite encoderForArrayFormat_fold. simpl.
    rewrite parse_concat, parse_pieces_free.
    2:{ apply Forall_fmap, Forall_true. intros s. apply bracketParam_free. }
    rewrite parse_many by done.
    destruct (omap echoScalar xs); done.
Qed.

(** *** The whole object *)

Lemma shouldFilter_echo f : shouldFilter cfg f = true → echoField f = None.
Proof.
  destruct f as [[| |s|n|b]|xs]; simpl; try done.
  intros Hs. apply bool_decide_eq_true in Hs. injection Hs as ->. done.
Qed.

Lemma fold_fieldStep (l : list (string * Field)) (acc : Obj) :
  NoDup l.*1 →
  (∀ k f, (k, f) ∈ l →
     stripBrackets k = None ∧ shouldFilter cfg f = false ∧ acc !! k = None) →
  ∀ k, fold_left (fieldStep cfg) l acc !! k
       = match (list_to_map l : Obj) !! k with
         | Some f => echoField f
         | None => acc !! k
         end.
Proof.
  revert acc. induction l as [|[k0 f0] l IH]; intros acc Hnodup Hl k; [done|].
  rewrite fmap_cons in Hnodup. apply NoDup_cons in Hnodup as [Hk0 Hnodup].
  simpl in Hk0.
  destruct (Hl k0 f0) as (Hb0 & Hkeep0 & Hfree0); [by left|].
  cbn [fold_left]. rewrite IH; [|done|].
  - cbn [list_to_map foldr]. rewrite fieldStep_spec by done. simpl.
    destruct (decide (k = k0)) as [->|Hne].
    + rewrite lookup_insert_eq.
      rewrite (not_elem_of_list_to_map_1 (M := gmap string)) by done.
      destruct (echoField f0); [by rewrite lookup_insert_eq | done].
    + rewrite lookup_insert_ne by done.
      destruct (list_to_map l !! k); [done|].
      destruct (echoField f0); [by rewrite lookup_insert_ne | done].
  - intros k' f' Hin. destruct (Hl k' f') as (Hb & Hkeep & Hfree); [by right|].
    split; [done|]. split; [done|].
    rewrite fieldStep_spec by done.
    destruct (echoField f0); [|done].
    rewrite lookup_insert_ne; [done|].
    intros ->. apply Hk0. apply list_elem_of_fmap. by exists (k', f').
Qed.

Lemma fold_nonempty (g : Obj → string → Obj) (l : list string) (acc : Obj) :
  (∀ acc, g acc "" = acc) →
  fold_left g (filter (λ x, x ≠ "") l) acc = fold_left g l acc.
Proof.
  intros Hg. revert acc. induction l as [|x l IH]; intros acc; [done|].
  destruct (decide (x = "")) as [->|Hx].
  - rewrite filter_cons_False by (intros Hne; by apply Hne). simpl. by rewrite Hg.
  - rewrite filter_cons_True by done. simpl. apply IH.
Qed.

Lemma fold_left_over_map {A B C} (f : A → B → A) (g : C → B) (l : list C) (acc : A) :
  fold_left f (List.map g l) acc = fold_left (λ acc x, f acc (g x)) l acc.
Proof. revert acc. induction l as [|x l IH]; intros acc; [done|]. simpl. apply IH. Qed.

Lemma class_isNot (P : ascii → bool) d c : P d = false → P c = true → isNot d c = true.
Proof.
  intros Hd Hc. unfold isNot. destruct (Ascii.eqb c d) eqn:Heq; [|done].
  apply Ascii.eqb_eq in Heq. congruence.
Qed.

Lemma allChars_concat P sep l :
  allChars P sep = true → Forall (λ s, allChars P s = true) l →
  allChars P (String.concat sep l) = true.
Proof.
  intros Hsep Hl. induction Hl as [|x l Hx Hl IH]; [done|].
  destruct l as [|y l]; [done|].
  change (String.concat sep (x :: y :: l)) with (x +:+ sep +:+ String.concat sep (y :: l)).
  by rewrite !allChars_app, Hx, Hsep, IH.
Qed.

Lemma encode_queryChars s : allChars isQueryChar (encode s) = true.
Proof.
  apply (allChars_impl isSafe); [|apply encode_safe].
  intros c Hc. unfold isQueryChar. by rewrite Hc.
Qed.

Lemma stringifyField_queryChars k f : allChars isQueryChar (stringifyField cfg k f) = true.
Proof.
  destruct f as [[| |s|n|b]|xs]; simpl;
    rewrite ?allChars_app, ?encode_queryChars; try done.
  rewrite encoderForArrayFormat_fold. simpl. apply allChars_concat; [done|].
  apply Forall_fmap, Forall_true. intros s. unfold compose, bracketParam.
  by rewrite !allChars_app, !encode_queryChars.
Qed.

Lemma stringify_queryChars (V : Obj) : allChars isQueryChar (stringify V cfg) = true.
Proof.
  unfold stringify. apply allChars_concat; [done|].
  apply Forall_forall. intros s [_ Hin]%list_elem_of_filter.
  apply list_elem_of_fmap in Hin as ([k f] & -> & _). apply stringifyField_queryChars.
Qed.

(** The bytes of an encoded query are no white space, and none of them
    starts a character of more than one byte: trimming leaves the query as
    it is. *)
Lemma trimStart_queryChar (c : ascii) (s : string) :
  isQueryChar c = true → trimStart (String c s) = String c s.
Proof.
  destruct c as [[] [] [] [] [] [] [] []]; intros Hc; try discriminate Hc;
    destruct s as [|d [|e s]]; reflexivity.
Qed.

Lemma trimEnd_queryChars (s : string) : allChars isQueryChar s = true → trimEnd s = s.
Proof.
  induction s as [|c s IH]; [done|]. intros [Hc Hs]%andb_true_iff.
  cbn [trimEnd]. rewrite (trimStart_queryChar c s Hc).
  rewrite bool_decide_eq_false_2 by done. by rewrite (IH Hs).
Qed.

Lemma trim_queryChars (s : string) : allChars isQueryChar s = true → trim s = s.
Proof.
  intros Hs. unfold trim. destruct s as [|c s]; [done|].
  apply andb_true_iff in Hs as Hcs. destruct Hcs as [Hc _].
  rewrite (trimStart_queryChar c s Hc). by apply trimEnd_queryChars.
Qed.

(** An encoded query starts with the name of its first field, not with a
    [&]. *)
Lemma startsField_app (s t : string) : startsField s → startsField (s +:+ t).
Proof. intros (c & u & -> & Hc). exists c, (u +:+ t). by rewrite append_cons. Qed.

Lemma startsField_encode (s t : string) : startsField t → startsField (encode s +:+ t).
Proof.
  intros Ht. destruct s as [|a s]; [done|]. cbn [encode].
  rewrite append_assoc. apply startsField_app. unfold encodeChar.
  destruct (isUnreserved a) eqn:Ha.
  - exists a, "". split; [done|].
    destruct (Ascii.eqb a "&") eqn:Heq; [|done].
    apply Ascii.eqb_eq in Heq as ->. discriminate Ha.
  - by eexists _, _.
Qed.

Lemma startsField_concat (l : list string) :
  Forall startsField l → l ≠ [] → startsField (String.concat "&" l).
Proof.
  intros Hl Hne. destruct Hl as [|x l Hx Hl]; [done|].
  destruct l as [|y l]; [done|].
  change (String.concat "&" (x :: y :: l)) with (x +:+ "&" +:+ String.concat "&" (y :: l)).
  by apply startsField_app.
Qed.

Lemma stringifyField_startsField k f :
  stringifyField cfg k f ≠ "" → startsField (stringifyField cfg k f).
Proof.
  destruct f as [[| |s|n|b]|xs]; cbn [stringifyField]; intros Hne; try done.
  - rewrite <- (append_nil_r (encode k)) in Hne |- *.
    destruct k as [|a k]; [done|].
    cbn [encode]. rewrite append_assoc. apply startsField_app. unfold encodeChar.
    destruct (isUnreserved a) eqn:Ha.
    + exists a, "". split; [done|].
      destruct (Ascii.eqb a "&") eqn:Heq; [|done].
      apply Ascii.eqb_eq in Heq as ->. discriminate Ha.
    + by eexists _, _.
  - apply startsField_encode. by eexists _, _.
  - apply startsField_encode. by eexists _, _.
  - apply startsField_encode. by eexists _, _.
  - rewrite encoderForArrayFormat_fold in Hne |- *. cbn [app] in Hne |- *.
    apply startsField_concat.
    + apply Forall_fmap, Forall_true. intros s. unfold compose, bracketParam.
      apply startsField_encode. by eexists _, _.
    + intros Hnil. by rewrite Hnil in Hne.
Qed.

Lemma stringify_clean (V : Obj) :
  dropLeading (trim (stringify V cfg)) = stringify V cfg.
Proof.
  rewrite trim_queryChars by apply stringify_queryChars.
  destruct (decide (stringify V cfg = "")) as [->|Hne]; [done|].
  assert (Hstart : startsField (stringify V cfg)).
  { unfold stringify in Hne |- *. apply startsField_concat.
    - apply Forall_forall. intros s [Hs Hin]%list_elem_of_filter.
      apply list_elem_of_fmap in Hin as ([k f] & -> & _).
      by apply stringifyField_startsField.
    - intros Hnil. by rewrite Hnil in Hne. }
  destruct Hstart as (c & t & Heq & Hc). rewrite Heq. cbn [dropLeading].
  pose proof (stringify_queryChars V) as Hchars. rewrite Heq in Hchars.
  apply andb_true_iff in Hchars as [Hq _]. rewrite Hc, orb_false_r.
  destruct (Ascii.eqb c "?") eqn:H1; [apply Ascii.eqb_eq in H1 as ->; discriminate Hq|].
  destruct (Ascii.eqb c "#") eqn:H2; [apply Ascii.eqb_eq in H2 as ->; discriminate Hq|].
  done.
Qed.

(** Whatever the fields are, the round trip gives every field back as
    text, without the omitted ones. *)
Lemma parse_stringify (V : Obj) :
  (∀ k f, V !! k = Some f → stripBrackets k = None) →
  parse (stringify V cfg) cfg = echo V.
Proof.
  intros Hkeys. unfold parse. rewrite stringify_clean. unfold stringify.
  set (V' := filter (λ kv : string * Field, shouldFilter cfg kv.2 = false) V).
  set (entries := merge_sort keyLe (map_to_list V')).
  assert (Hperm : entries ≡ₚ map_to_list V') by apply merge_sort_Permutation.
  rewrite parse_concat, fold_nonempty by done.
  rewrite fold_left_over_map.
  change (fold_left (fieldStep cfg) entries ∅ = echo V).
  apply map_eq. intros k. rewrite fold_fieldStep.
  - assert (Hmap : (list_to_map entries : Obj) = V').
    { rewrite (list_to_map_proper entries (map_to_list V')); [apply list_to_map_to_list| |done].
      rewrite Hperm. apply NoDup_fst_map_to_list. }
    rewrite Hmap. unfold echo. rewrite lookup_omap, lookup_empty.
    unfold V'. destruct (V !! k) as [f|] eqn:Hf; simpl.
    + destruct (shouldFilter cfg f) eqn:Hs.
      * rewrite map_lookup_filter_None_2; [by rewrite shouldFilter_echo|].
        right. intros f' Hf'. simpl. congruence.
      * rewrite (map_lookup_filter_Some_2 _ _ _ f); done.
    + by rewrite map_lookup_filter_None_2 by (by left).
  - rewrite Hperm. apply NoDup_fst_map_to_list.
  - intros k' f' Hin. rewrite Hperm in Hin.
    apply elem_of_map_to_list in Hin. unfold V' in Hin.
    apply map_lookup_filter_Some in Hin as [Hf' Hkeep]. simpl in Hkeep.
    split; [by apply (Hkeys k' f')|]. split; [done|]. apply lookup_empty.
Qed.

Lemma echo_texts (xs : list Scalar) :
  forallb isText xs = true →
  VStr <$> omap echoScalar xs = xs ∧ (omap echoScalar xs = [] → xs = []).
Proof.
  induction xs as [|x xs IH]; [done|].
  cbn [forallb]. intros [Hx Hxs]%andb_true_iff.
  destruct x as [| |s|n|b]; try discriminate Hx. simpl in Hx.
  apply negb_true_iff in Hx. destruct (IH Hxs) as [Hecho _].
  assert (Hstep : omap echoScalar (VStr s :: xs) = s :: omap echoScalar xs).
  { cbn [omap list_omap echoScalar]. by rewrite Hx. }
  rewrite Hstep, fmap_cons, Hecho. split; [done | discriminate].
Qed.

Lemma echoField_textual (f : Field) :
  textual f = true → echoField f = if isEmptyField f then None else Some f.
Proof.
  destruct f as [[| |s|n|b]|xs]; simpl; try done.
  - intros _. by destruct (bool_decide (s = "")).
  - intros Htext. destruct (echo_texts xs Htext) as [Hecho Hnil].
    destruct (omap echoScalar xs) as [|s ss] eqn:Hss.
    + by rewrite (Hnil eq_refl).
    + rewrite bool_decide_eq_false_2 by (intros ->; discriminate Hss).
      do 2 f_equal. exact Hecho.
Qed.

(** *** The URL the reflection procedure navigates to *)

Lemma splitOnFirst_free c s : allChars (isNot c) s = true → splitOnFirst c s = (s, None).
Proof.
  induction s as [|a s IH]; simpl; [done|].
  intros [Ha Hs]%andb_true_iff. unfold isNot in Ha. apply negb_true_iff in Ha.
  by rewrite Ha, (IH Hs).
Qed.

Lemma splitOnFirst_before c s : allChars (isNot c) (splitOnFirst c s).1 = true.
Proof.
  induction s as [|a s IH]; simpl; [done|].
  destruct (Ascii.eqb a c) eqn:Ha; [done|].
  destruct (splitOnFirst c s) as [k v]. simpl in *. unfold isNot at 1. by rewrite Ha, IH.
Qed.

Lemma splitOnFirst_keeps P c s : allChars P s = true → allChars P (splitOnFirst c s).1 = true.
Proof.
  induction s as [|a s IH]; simpl; [done|].
  intros [Ha Hs]%andb_true_iff. destruct (Ascii.eqb a c); [done|].
  specialize (IH Hs). destruct (splitOnFirst c s) as [k v]. simpl in *. by rewrite Ha, IH.
Qed.

(** The URL the procedure navigates to is the path of the current one
    followed by the encoded filters, and its query parses as the encoding
    does. *)
Lemma parseUrl_reflected (asPath : string) (V : Obj) :
  let base := url (parseUrl asPath defaultOptions) in
  let q := stringify V cfg in
  let href := base +:+ (if bool_decide (q ≠ "") then "?" +:+ q else "") in
  url (parseUrl href defaultOptions) = base
  ∧ query (parseUrl href cfg) = parse q cfg.
Proof.
  intros base q href.
  assert (Hbase_hash : allChars (isNot "#") base = true).
  { apply splitOnFirst_keeps, splitOnFirst_before. }
  assert (Hbase_mark : allChars (isNot "?") base = true) by apply splitOnFirst_before.
  assert (Hq_hash : allChars (isNot "#") q = true).
  { apply (allChars_impl isQueryChar); [|apply stringify_queryChars].
    intros c. by apply class_isNot. }
  unfold parseUrl, extract. simpl. unfold href.
  destruct (bool_decide (q ≠ "")) eqn:Hq.
  - change (base +:+ "?" +:+ q) with (base +:+ String "?" q).
    rewrite (splitOnFirst_free "#") by (by rewrite allChars_app, Hbase_hash; simpl; rewrite Hq_hash).
    simpl. by rewrite splitOnFirst_app.
  - apply bool_decide_eq_false in Hq. apply dec_stable in Hq.
    rewrite append_nil_r. rewrite (splitOnFirst_free "#") by done. simpl.
    rewrite (splitOnFirst_free "?") by done. simpl. by rewrite Hq.
Qed.

(** C5, as amended: for a filter object whose fields are strings, absent
    values or sequences of non-empty strings, and none of whose field names
    ends in [[]], encoding with the hook's configuration (bracket notation
    for sequences, [null], [undefined] and empty strings omitted) and parsing
    the query string back with the same configuration gives the object
    restricted to its non-empty, non-null fields; and so does parsing the
    URL that [handleSetFiltersInUrl] of filters_manager.service.ts navigates
    to with that object. *)
Theorem stringify_parse_roundtrip (V : Obj) :
  (∀ k f, V !! k = Some f → stripBrackets k = None ∧ textual f = true) →
  parse (stringify V Service.queryStringConfig) Service.queryStringConfig = restrict V
  ∧ (∀ (Err Store : Type) (p : Api.Props string Obj Err Store) (router : Next.Router)
       (w : Runtime.World Obj Err Store),
       Next.isReady router = true → Api.queryTransformer p = None →
       ∃ href,
         Runtime.location (Service.handleSetFiltersInUrl id p router (Defined V) w)
         = Next.UrlString href
         ∧ query (parseUrl href Service.queryStringConfig) = restrict V).
Proof.
  intros HV.
  assert (Hround : parse (stringify V cfg) cfg = restrict V).
  { rewrite parse_stringify by (intros k f Hf; by destruct (HV k f Hf)).
    apply map_eq. intros k. unfold echo, restrict. rewrite lookup_omap.
    destruct (V !! k) as [f|] eqn:Hf; simpl.
    - destruct (HV k f Hf) as [_ Htext]. rewrite (echoField_textual f Htext).
      destruct (isEmptyField f) eqn:Hempty.
      + rewrite map_lookup_filter_None_2; [done|].
        right. intros f' Hf'. simpl. congruence.
      + by rewrite (map_lookup_filter_Some_2 _ _ _ f).
    - by rewrite map_lookup_filter_None_2 by (by left). }
  split; [done|]. intros Err Store p router w Hready Hplain.
  unfold Service.handleSetFiltersInUrl. rewrite Hready, Hplain. simpl.
  eexists. split; [done|].
  etrans; [exact (proj2 (parseUrl_reflected (Next.asPath router) V)) | exact Hround].
Qed.

End CodecFacts.

Section CodecExamples.
Import QueryString.

Lemma stringify_parse_roundtrip_witness :
  parse (stringify Sample.taggedFilters Service.queryStringConfig) Service.queryStringConfig
  = <["sortDirection" := One (VStr "asc")]> (<["tags" := Many [VStr "new"; VStr "sale"]]> ∅).
Proof.
  assert (HV : ∀ k f, Sample.taggedFilters !! k = Some f →
                      stripBrackets k = None ∧ textual f = true).
  { intros k f Hf. unfold Sample.taggedFilters in Hf.
    repeat (apply lookup_insert_Some in Hf as [[<- <-]|[_ Hf]]; [split; reflexivity|]).
    by rewrite lookup_empty in Hf. }
  rewrite (proj1 (stringify_parse_roundtrip Sample.taggedFilters HV)).
  vm_compute. reflexivity.
Defined.

(** The claim C5 as it is written does not hold for every filter object:
    the initial filters of the README, [{page: 1, perPage: 50, sortBy: null,
    sortDirection: 'asc'}], are encoded as
    [page=1&perPage=50&sortDirection=asc] and come back with the strings
    ['1'] and ['50'] where the numbers were. *)
Lemma stringify_parse_numbers_counterexample :
  stringify Sample.cartInitialFilters Service.queryStringConfig
    = "page=1&perPage=50&sortDirection=asc"%string
  ∧ parse (stringify Sample.cartInitialFilters Service.queryStringConfig)
      Service.queryStringConfig
    = <["page" := One (VStr "1")]> (<["perPage" := One (VStr "50")]>
        (<["sortDirection" := One (VStr "asc")]> ∅))
  ∧ restrict Sample.cartInitialFilters
    = <["page" := One (VNum (int 1 I))]> (<["perPage" := One (VNum (int 50 I))]>
        (<["sortDirection" := One (VStr "asc")]> ∅))
  ∧ parse (stringify Sample.cartInitialFilters Service.queryStringConfig)
      Service.queryStringConfig
    ≠ restrict Sample.cartInitialFilters.
Proof.
  assert (Hparse : parse (stringify Sample.cartInitialFilters Service.queryStringConfig)
                     Service.queryStringConfig
                   = <["page" := One (VStr "1")]> (<["perPage" := One (VStr "50")]>
                       (<["sortDirection" := One (VStr "asc")]> ∅)))
    by (vm_compute; reflexivity).
  assert (Hrestrict : restrict Sample.cartInitialFilters
                      = <["page" := One (VNum (int 1 I))]> (<["perPage" := One (VNum (int 50 I))]>
                          (<["sortDirection" := One (VStr "asc")]> ∅)))
    by (vm_compute; reflexivity).
  split; [vm_compute; reflexivity|]. split; [done|]. split; [done|].
  rewrite Hparse, Hrestrict. intros Heq.
  apply (f_equal (λ m : Obj, m !! "page"%string)) in Heq.
  vm_compute in Heq. discriminate Heq.
Qed.

(** A field name that ends in brackets comes back as a sequence under the
    name without them. *)
Example stringify_parse_bracket_name :
  parse (stringify (<["ids[]" := One (VStr "7")]> ∅) Service.queryStringConfig)
    Service.queryStringConfig
  = <["ids" := Many [VStr "7"]]> ∅.
Proof. vm_compute. reflexivity. Qed.

(** The empty and absent elements of a sequence are omitted too. *)
Example stringify_parse_empty_elements :
  parse (stringify (<["tags" := Many [VStr "new"; VStr ""; VNull]]> ∅)
           Service.queryStringConfig)
    Service.queryStringConfig
  = <["tags" := Many [VStr "new"]]> ∅.
Proof. vm_compute. reflexivity. Qed.

End CodecExamples.

(** ** Renders that follow one another *)

Section RenderAgainFacts.
Context {Val Err Store : Type} `{Countable Val}.
Import ReactQuery Next Runtime Manager.
Local Abbreviation World := (World Val Err Store).
Local Abbreviation Props := (Props (list Prim) Val Err Store).

(** An observer that stays on its query, enabled or not as before, starts
    no fetch, leaves the query as it is and stays counted as it was. *)
Lemma fetchDue_stay (key : QueryKey Val) (enabled : bool)
    (o : ObserverOptions Val Err Store) (w : World) :
  opt_enabled o = enabled → fetchDue (Some key) enabled key o w = false.
Proof.
  intros <-. unfold fetchDue, shouldFetch. rewrite bool_decide_eq_true_2 by done.
  by destruct (opt_enabled o).
Qed.

Lemma observe_stay (key : QueryKey Val) (enabled : bool)
    (o : ObserverOptions Val Err Store) (w : World) (q : Query Val Err Store) :
  opt_enabled o = enabled → cache w !! key = Some q → is_Some (queryFn q) →
  observe (Some key) enabled key o w = q.
Proof.
  intros Hen Hq [fn Hfn]. unfold observe. rewrite (fetchDue_stay _ _ _ _ Hen).
  unfold findQuery. rewrite Hq. by apply (adopt_id _ fn).
Qed.

Lemma subscribe_stay (key : QueryKey Val) (enabled : bool)
    (observers : gmap (QueryKey Val) nat) :
  subscribe (Some key) enabled key enabled observers = observers.
Proof.
  unfold subscribe. rewrite bool_decide_eq_true_2 by done. by destruct enabled.
Qed.

Lemma useFilters_values (p : Props) (router : Router) (inst : Instance Val) (w : World) :
  values (useFilters p router inst w).1.1
  = createResult (default id (select (valuesOptions p)))
      (observe (valuesObserver inst) (valuesEnabled inst)
         (valuesKey p (data (filters (useFilters p router inst w).1.1)))
         (valuesObserverOptions p (data (filters (useFilters p router inst w).1.1))) w).
Proof. by rewrite useFilters_spec. Qed.

Lemma useFilters_valuesObserver (p : Props) (router : Router) (inst : Instance Val) (w : World) :
  valuesObserver (useFilters p router inst w).1.2
  = Some (valuesKey p (data (filters (useFilters p router inst w).1.1)))
  ∧ valuesEnabled (useFilters p router inst w).1.2 = valuesEnabledOf p.
Proof. by rewrite useFilters_spec. Qed.

(** A render in which the three observers stay where they are. *)
Lemma useFilters_settled (p : Props) (router : Router) (inst : Instance Val) (w : World)
    (qv qf qd : Query Val Err Store) :
  variantsObserver inst = Some (variantsKey p) →
  filtersObserver inst = Some (filtersQueryKey p router) →
  valuesObserver inst = Some (valuesKey p (data (createResult (filtersSelect p) qf))) →
  valuesEnabled inst = valuesEnabledOf p →
  cache w !! variantsKey p = Some qv → is_Some (queryFn qv) →
  cache w !! filtersQueryKey p router = Some qf → is_Some (queryFn qf) →
  cache w !! valuesKey p (data (createResult (filtersSelect p) qf)) = Some qd →
  is_Some (queryFn qd) →
  useFilters p router inst w
  = ({| appliedFiltersCount := appliedFiltersCountState inst;
        values := createResult (default id (select (valuesOptions p))) qd;
        initialFilters_ := initialFilters p;
        filters := createResult (filtersSelect p) qf;
        variants := createResult id qv |}, inst, w).
Proof.
  intros Hov Hof Hod Hen Hqv Hfv Hqf Hff Hqd Hfd. rewrite useFilters_spec. cbv zeta.
  rewrite Hov, Hof.
  rewrite (observe_stay (variantsKey p) true (variantsOptions p) w qv eq_refl Hqv Hfv).
  rewrite (observe_stay (filtersQueryKey p router) true (filtersOptions p router) w qf
             eq_refl Hqf Hff).
  rewrite Hod, Hen.
  rewrite (observe_stay _ (valuesEnabledOf p) (valuesObserverOptions p _) w qd eq_refl
             Hqd Hfd).
  rewrite (fetchDue_stay (variantsKey p) true (variantsOptions p) w eq_refl).
  rewrite (fetchDue_stay (filtersQueryKey p router) true (filtersOptions p router) w eq_refl).
  rewrite (fetchDue_stay _ (valuesEnabledOf p) (valuesObserverOptions p _) w eq_refl).
  rewrite !subscribe_stay.
  rewrite (insert_id (cache w) _ _ Hqv), (insert_id (cache w) _ _ Hqf).
  rewrite (insert_id (cache w) _ _ Hqd).
  destruct inst as [count deps obsV obsF obsD enD], w as [c o r n s l t].
  simpl in *. rewrite !app_nil_r. by rewrite Hov, Hof, Hod, Hen.
Qed.

Lemma cycle_spec (p : Props) (router : Router) (inst : Instance Val) (w : World) :
  cycle p router inst w
  = ((useFilters p router inst w).1.1,
     useEffect p (data (filters (useFilters p router inst w).1.1))
       (useFilters p router inst w).1.2,
     (useFilters p router inst w).2).
Proof. unfold cycle. by destruct (useFilters p router inst w) as [[out inst'] w']. Qed.

Lemma useEffect_observers (p : Props) (fd : Nullable Val) (inst : Instance Val) :
  variantsObserver (useEffect p fd inst) = variantsObserver inst
  ∧ filtersObserver (useEffect p fd inst) = filtersObserver inst
  ∧ valuesObserver (useEffect p fd inst) = valuesObserver inst
  ∧ valuesEnabled (useEffect p fd inst) = valuesEnabled inst
  ∧ effectDeps (useEffect p fd inst) = Some (fd, fn_id <$> getAppliedFiltersCount p).
Proof.
  unfold useEffect. destruct (bool_decide _) eqn:Hdeps; [|done].
  apply bool_decide_eq_true in Hdeps. done.
Qed.

(** X1: an evaluation cycle that follows another one with nothing in
    between (same props, same router, no fetch settled, no write) starts no
    fetch and changes neither the cache nor the state of the hook, and
    returns the same three query results. *)
Theorem cycle_idempotent (p : Props) (router : Router) (inst : Instance Val) (w : World) :
  (cycle p router (cycle p router inst w).1.2 (cycle p router inst w).2).1.2
  = (cycle p router inst w).1.2
  ∧ (cycle p router (cycle p router inst w).1.2 (cycle p router inst w).2).2
    = (cycle p router inst w).2
  ∧ filters (cycle p router (cycle p router inst w).1.2 (cycle p router inst w).2).1.1
    = filters (cycle p router inst w).1.1
  ∧ values (cycle p router (cycle p router inst w).1.2 (cycle p router inst w).2).1.1
    = values (cycle p router inst w).1.1
  ∧ variants (cycle p router (cycle p router inst w).1.2 (cycle p router inst w).2).1.1
    = variants (cycle p router inst w).1.1.
Proof.
  destruct (cycle_out p router inst w) as [Hout Hw].
  pose proof (cycle_instance p router inst w) as Hinst.
  destruct (useEffect_observers p (data (filters (cycle p router inst w).1.1))
              (useFilters p router inst w).1.2) as (Hov & Hof & Hod & Hen & Hdeps).
  rewrite <- Hinst in Hov, Hof, Hod, Hen, Hdeps.
  destruct (useFilters_observers p router inst w) as [Hof1 Hov1].
  destruct (useFilters_valuesObserver p router inst w) as [Hod1 Hen1].
  rewrite Hov1 in Hov. rewrite Hof1 in Hof. rewrite Hod1 in Hod. rewrite Hen1 in Hen.
  pose proof (useFilters_filters p router inst w) as Hfd.
  set (qf := observe (filtersObserver inst) true (filtersQueryKey p router)
               (filtersOptions p router) w) in *.
  assert (Hqv := useFilters_cache_variants p router inst w).
  assert (Hqf := useFilters_cache_filters p router inst w).
  assert (Hqd := useFilters_cache_values p router inst w).
  fold qf in Hqf. rewrite Hfd in Hod, Hqd. cbn [data createResult] in Hod, Hqd.
  rewrite <- Hw in Hqv, Hqf, Hqd.
  pose proof (useFilters_settled p router (cycle p router inst w).1.2
                (cycle p router inst w).2 _ qf _ Hov Hof Hod Hen Hqv
                (observe_queryFn _ _ _ _ _) Hqf (observe_queryFn _ _ _ _ _) Hqd
                (observe_queryFn _ _ _ _ _)) as Hsettled.
  assert (Heff : useEffect p (data (createResult (filtersSelect p) qf))
                   (cycle p router inst w).1.2 = (cycle p router inst w).1.2).
  { unfold useEffect. rewrite <- Hfd, <- Hout, Hdeps.
    by rewrite bool_decide_eq_true_2. }
  rewrite (cycle_spec p router (cycle p router inst w).1.2 (cycle p router inst w).2).
  rewrite Hsettled. cbn [fst snd filters values variants]. rewrite Heff.
  split; [done|]. split; [done|].
  rewrite Hout. split; [done|].
  rewrite useFilters_values, useFilters_variants, Hfd. done.
Qed.









End RenderAgainFacts.

Section RenderAgainExamples.
Import ReactQuery Next Runtime Manager.


(** With [valuesOptions: {enabled: false}] the first render fetches the
    variants and the filters, and no data. *)
Example values_not_fetched_when_disabled :
  trace (useFilters Sample.cartPropsDisabled Sample.routerReady mount Sample.world0).2
  = [EvFetch (variantsKey Sample.cartPropsDisabled);
     EvFetch (filtersQueryKey Sample.cartPropsDisabled Sample.routerReady)]
  ∧ status (values (useFilters Sample.cartPropsDisabled Sample.routerReady mount
                      Sample.world0).1.1)
    = Loading.
Proof. split; reflexivity. Qed.



End RenderAgainExamples.

(** ** What a write leaves alone *)

Section WriteValuesFacts.
Context {Val Err Store : Type} `{Countable Val}.
Import ReactQuery Next Runtime Api.

Lemma Manager_valuesKey_not_matched (p : Props (list Prim) Val Err Store)
    (filtersData : Nullable Val) :
  partialMatchKey (Manager.valuesKey p filtersData) (Manager.filtersFilterKey p) = false.
Proof.
  apply not_true_iff_false. intros [rest Hrest]%partialMatchKey_prefix.
  unfold Manager.valuesKey, Manager.filtersFilterKey in Hrest.
  rewrite fmap_app, <- app_assoc in Hrest. apply app_inv_head in Hrest.
  destruct filtersData; discriminate.
Qed.

Lemma string_ne_app_cons (s : string) (c : ascii) (t : string) : s ≠ s +:+ String c t.
Proof.
  induction s as [|a s IH]; [done|].
  rewrite append_cons. intros Heq. injection Heq as Heq. by apply IH.
Qed.

Lemma Service_valuesKey_not_matched (p : Props string Val Err Store)
    (filtersData : Nullable Val) :
  partialMatchKey (Service.valuesKey p filtersData) (Service.filtersFilterKey p) = false.
Proof.
  unfold Service.valuesKey, Service.filtersFilterKey. simpl.
  rewrite bool_decide_eq_false_2; [done|].
  intros Heq. injection Heq as Heq. by apply string_ne_app_cons in Heq.
Qed.

(** X5: a write never touches the data queries: whatever the filters they
    were fetched for, the queries under [[...filtersKey, filters.data]] (and
    under [[filtersKey, filters.data]] in filters_manager.service.ts) are the
    same after [setFilters] and [resetFilters] as before, and so are not
    marked invalid; the data is fetched again only when the filters, and
    with them the key, change. *)
Theorem writes_keep_values (p : Props (list Prim) Val Err Store)
    (ps : Props string Val Err Store) (fieldsOf : Val → Obj) (router : Router)
    (d : Val) (callback : option (Val → Val)) (filtersData : Nullable Val)
    (w : World Val Err Store) :
  cache (Manager.setFilters p router d w).2 !! Manager.valuesKey p filtersData
  = cache w !! Manager.valuesKey p filtersData
  ∧ cache (Manager.resetFilters p router callback w).2 !! Manager.valuesKey p filtersData
    = cache w !! Manager.valuesKey p filtersData
  ∧ cache (Service.setFilters fieldsOf ps router d w).2 !! Service.valuesKey ps filtersData
    = cache w !! Service.valuesKey ps filtersData
  ∧ cache (Service.resetFilters fieldsOf ps router callback w).2
      !! Service.valuesKey ps filtersData
    = cache w !! Service.valuesKey ps filtersData.
Proof.
  rewrite resetFilters_target, Service_resetFilters_target.
  split; [|split; [|split]].
  - apply Manager_setFilters_other, Manager_valuesKey_not_matched.
  - apply Manager_setFilters_other, Manager_valuesKey_not_matched.
  - apply Service_setFilters_other, Service_valuesKey_not_matched.
  - apply Service_setFilters_other, Service_valuesKey_not_matched.
Qed.

End WriteValuesFacts.

(** ** The applied-filters count under stable props *)

Section CountInvariantFacts.
Context {Val Err Store : Type} `{Countable Val}.
Import ReactQuery Next Runtime Manager Invariant.
Local Abbreviation World := (World Val Err Store).
Local Abbreviation Props := (Props (list Prim) Val Err Store).

Lemma useEffect_countCurrent (p : Props) (f : Closure Val Z) (filtersData : Nullable Val)
    (inst : Instance Val) :
  getAppliedFiltersCount p = Some f →
  countCurrent f (initialFilters p) inst →
  effectDeps (useEffect p filtersData inst) = Some (filtersData, Some (fn_id f))
  ∧ appliedFiltersCountState (useEffect p filtersData inst)
    = call f (coalesce filtersData (initialFilters p)).
Proof.
  intros Hf Hinv. unfold useEffect. rewrite Hf. simpl.
  destruct (bool_decide _) eqn:Hdeps; [|done].
  apply bool_decide_eq_true in Hdeps. split; [done|].
  destruct Hinv as [Hnone | (filtersData' & Hsome & Hcount)]; [congruence|].
  rewrite Hsome in Hdeps. by injection Hdeps as ->.
Qed.

Lemma perform_countCurrent (f : Closure Val Z) (initial : Val) (s : Instance Val * World)
    (a : @Action Val Err Store) :
  (∀ p, propsOf a = Some p →
        getAppliedFiltersCount p = Some f ∧ initialFilters p = initial) →
  countCurrent f initial s.1 → countCurrent f initial (perform s a).1.
Proof.
  intros Hprops Hinv. destruct a as [p router|key|p router d|p router callback|key d];
    cbn [perform fst]; try done.
  destruct (Hprops p eq_refl) as [Hf <-].
  rewrite (cycle_spec p router s.1 s.2). cbn [fst snd].
  destruct (useFilters_instance p router s.1 s.2) as [Hcount Hdeps].
  assert (Hinv' : countCurrent f (initialFilters p) (useFilters p router s.1 s.2).1.2).
  { unfold countCurrent. rewrite Hcount, Hdeps. exact Hinv. }
  destruct (useEffect_countCurrent p f
              (data (filters (useFilters p router s.1 s.2).1.1)) _ Hf Hinv') as [Hd Hc].
  right. eexists. split; [exact Hd | exact Hc].
Qed.

Lemma run_countCurrent (f : Closure Val Z) (initial : Val)
    (actions : list (@Action Val Err Store)) (s : Instance Val * World) :
  Forall (λ a, ∀ p, propsOf a = Some p →
                    getAppliedFiltersCount p = Some f ∧ initialFilters p = initial) actions →
  countCurrent f initial s.1 → countCurrent f initial (run actions s).1.
Proof.
  intros Hall. revert s. induction Hall as [|a actions Ha _ IH]; intros s Hinv; [done|].
  simpl. apply IH. by apply perform_countCurrent.
Qed.

(** X7: as long as every evaluation since the mount was given the same
    [getAppliedFiltersCount] and the same [initialFilters], the count held
    after an evaluation cycle is the count of the filters that cycle
    rendered, whether or not its effect ran; the next render publishes
    it. *)
Theorem appliedFiltersCount_current (p : Props) (f : Closure Val Z) (router : Router)
    (actions : list (@Action Val Err Store)) (w0 : World) :
  getAppliedFiltersCount p = Some f →
  Forall (λ a, ∀ p0, propsOf a = Some p0 →
                     getAppliedFiltersCount p0 = Some f
                     ∧ initialFilters p0 = initialFilters p) actions →
  let s := run actions (mount, w0) in
  let rendered := cycle p router s.1 s.2 in
  appliedFiltersCountState rendered.1.2
  = call f (coalesce (data (filters rendered.1.1)) (initialFilters p))
  ∧ ∀ (p' : Props) router' (w' : World),
      appliedFiltersCount (cycle p' router' rendered.1.2 w').1.1
      = call f (coalesce (data (filters rendered.1.1)) (initialFilters p)).
Proof.
  intros Hf Hall s rendered.
  assert (Hinv : countCurrent f (initialFilters p) s.1).
  { apply run_countCurrent; [exact Hall | by left]. }
  assert (Hcell : appliedFiltersCountState rendered.1.2
                  = call f (coalesce (data (filters rendered.1.1)) (initialFilters p))).
  { unfold rendered. rewrite (cycle_spec p router s.1 s.2). cbn [fst snd].
    destruct (useFilters_instance p router s.1 s.2) as [Hcount Hdeps].
    apply (useEffect_countCurrent p f); [exact Hf|].
    unfold countCurrent. rewrite Hcount, Hdeps. exact Hinv. }
  split; [exact Hcell|]. intros p' router' w'. by rewrite cycle_published.
Qed.

End CountInvariantFacts.

Section CountInvariantExamples.
Import ReactQuery Next Runtime Manager.

Lemma appliedFiltersCount_current_witness :
  appliedFiltersCountState
    (cycle Sample.cartPropsCounting Sample.routerReady
       (run [ActCycle Sample.cartPropsCounting Sample.routerReady;
             ActSettle (filtersQueryKey Sample.cartPropsCounting Sample.routerReady);
             ActSetFilters Sample.cartPropsCounting Sample.routerReady Sample.page2]
          (mount, Sample.world0)).1
       (run [ActCycle Sample.cartPropsCounting Sample.routerReady;
             ActSettle (filtersQueryKey Sample.cartPropsCounting Sample.routerReady);
             ActSetFilters Sample.cartPropsCounting Sample.routerReady Sample.page2]
          (mount, Sample.world0)).2).1.2
  = 4%Z.
Proof.
  refine (proj1 (appliedFiltersCount_current Sample.cartPropsCounting Sample.countApplied
                   Sample.routerReady
                   [ActCycle Sample.cartPropsCounting Sample.routerReady;
                    ActSettle (filtersQueryKey Sample.cartPropsCounting Sample.routerReady);
                    ActSetFilters Sample.cartPropsCounting Sample.routerReady Sample.page2]
                   Sample.world0 eq_refl _)).
  repeat (apply Forall_cons_2;
          [intros p0 Hp0; simpl in Hp0; try discriminate Hp0;
           injection Hp0 as <-; split; reflexivity|]).
  apply Forall_nil_2.
Defined.

End CountInvariantExamples.

(** ** The pathname of the navigation *)

Section PathnameFacts.
Context {Val Err Store : Type} `{Countable Val}.
Import QueryString ReactQuery Next Runtime Manager.
Local Abbreviation World := (World Val Err Store).
Local Abbreviation Props := (Props (list Prim) Val Err Store).

Lemma stripQuery_cons (c d : ascii) (s : string) :
  stripQuery (String c (String d s))
  = if Ascii.eqb c "?" && negb (atLineTerminator (String d s)) then dropLine (String d s)
    else String c (stripQuery (String d s)).
Proof. reflexivity. Qed.

(** Up to the first [?] the path is kept. *)
Lemma stripQuery_path (path : string) (c : ascii) (rest : string) :
  allChars (isNot "?") path = true →
  stripQuery (path +:+ String c rest) = path +:+ stripQuery (String c rest).
Proof.
  induction path as [|a path IH]; [done|].
  intros [Ha Hpath]%andb_true_iff. unfold isNot in Ha. apply negb_true_iff in Ha.
  rewrite !append_cons. destruct path as [|d path].
  - change ("" +:+ String c rest) with (String c rest).
    rewrite stripQuery_cons, Ha. done.
  - rewrite append_cons in *. rewrite stripQuery_cons, Ha. simpl andb. cbv iota.
    by rewrite (IH Hpath).
Qed.

Lemma stripQuery_free (path : string) :
  allChars (isNot "?") path = true → stripQuery path = path.
Proof.
  induction path as [|a path IH]; [done|].
  intros [Ha Hpath]%andb_true_iff. unfold isNot in Ha. apply negb_true_iff in Ha.
  destruct path as [|d path]; [done|].
  rewrite stripQuery_cons, Ha. simpl andb. cbv iota. by rewrite (IH Hpath).
Qed.

Lemma dropLine_cons (c : ascii) (s : string) :
  dropLine (String c s) = if atLineTerminator (String c s) then String c s else dropLine s.
Proof. reflexivity. Qed.

Lemma lineFree_cons (c : ascii) (s : string) :
  lineFree (String c s) = negb (atLineTerminator (String c s)) && lineFree s.
Proof. reflexivity. Qed.

Lemma dropLine_free (s : string) : lineFree s = true → dropLine s = "".
Proof.
  induction s as [|a s IH]; [done|]. rewrite lineFree_cons, dropLine_cons.
  intros [Ha Hs]%andb_true_iff. apply negb_true_iff in Ha. by rewrite Ha, IH.
Qed.

(** X8: the pathname [handleSetFiltersInUrl] of filters_manager.tsx
    navigates to, [router.asPath.replace(/\?.+/, '')]: the current path when
    it has no query; the path before the [?] when a query follows it on the
    same line (what follows a line terminator in the query, LF, CR, U+2028
    or U+2029, is kept); and the path with its [?] when nothing follows the
    [?]. *)
Theorem handleSetFiltersInUrl_pathname (p : Props) (router : Router) (v : Val) (w : World)
    (path : string) (c : ascii) (q : string) :
  isReady router = true →
  allChars (isNot "?") path = true →
  atLineTerminator (String c q) = false →
  let target := Defined (match queryTransformer p with Some t => t v | None => v end) in
  (asPath router = path →
   location (handleSetFiltersInUrl p router (Defined v) w) = UrlObject path target)
  ∧ (asPath router = path +:+ String "?" (String c q) →
     location (handleSetFiltersInUrl p router (Defined v) w)
     = UrlObject (path +:+ dropLine q) target
     ∧ (lineFree q = true →
        location (handleSetFiltersInUrl p router (Defined v) w) = UrlObject path target))
  ∧ (asPath router = path +:+ "?" →
     location (handleSetFiltersInUrl p router (Defined v) w)
     = UrlObject (path +:+ "?") target).
Proof.
  intros Hready Hpath Hc target.
  rewrite (handleSetFiltersInUrl_replace p router v w Hready). cbn [replace location].
  fold target. split; [|split].
  - intros ->. by rewrite stripQuery_free.
  - intros ->. rewrite stripQuery_path by done. rewrite stripQuery_cons, Hc.
    change (Ascii.eqb "?" "?" && negb false) with true. cbv iota.
    rewrite dropLine_cons, Hc. split; [done|].
    intros Hq. by rewrite (dropLine_free q Hq), append_nil_r.
  - intros ->. by rewrite stripQuery_path.
Qed.

End PathnameFacts.

Section PathnameExamples.
Import QueryString ReactQuery Next Runtime.

Lemma handleSetFiltersInUrl_pathname_witness :
  location (Manager.handleSetFiltersInUrl Sample.cartProps Sample.routerWithQuery
              (Defined Sample.page2) Sample.world0)
  = UrlObject "/cart" (Defined Sample.page2).
Proof.
  refine (proj2 (proj1 (proj2 (handleSetFiltersInUrl_pathname Sample.cartProps
            Sample.routerWithQuery Sample.page2 Sample.world0 "/cart" "p"
            "age=2&sortDirection=desc" _ _ _)) _) _); reflexivity.
Defined.

(** A query cut by the line separator U+2028: the part from the separator
    on stays in the pathname. *)
Example stripQuery_line_separator :
  stripQuery ("/cart?a=1" +:+ String "226" (String "128" (String "168" "b=2")))
  = "/cart" +:+ String "226" (String "128" (String "168" "b=2")).
Proof. reflexivity. Qed.

End PathnameExamples.

(** ** [handleSetFiltersInUrl] of the cjs build *)

Section CjsFacts.
Context {Val Err Store : Type} `{Countable Val}.
Import ReactQuery Next Runtime Api.
Local Abbreviation World := (World Val Err Store).
Local Abbreviation Props := (Props (list Prim) Val Err Store).

(** X9: [handleSetFiltersInUrl] of the cjs build against the one of
    filters_manager.tsx.  Without [querySetter] and [scrollAfterUpdateQuery]
    the two are the same function; [scrollAfterUpdateQuery] changes nothing
    but the option given to [router.replace]; and with a [querySetter] the
    hook itself does not navigate: [scrollAfterUpdateQuery] is ignored, and
    the world is the one the [querySetter] left, with all it was given
    being the transformed data. *)
Theorem cjs_handleSetFiltersInUrl (p : Props)
    (querySetter : Nullable Val → World → World) (scroll scroll' : option bool)
    (router : Router) (data : Nullable Val) (w : World) :
  ManagerCjs.handleSetFiltersInUrl p None None router data w
  = Manager.handleSetFiltersInUrl p router data w
  ∧ (location (ManagerCjs.handleSetFiltersInUrl p None scroll router data w)
     = location (Manager.handleSetFiltersInUrl p router data w)
     ∧ cache (ManagerCjs.handleSetFiltersInUrl p None scroll router data w) = cache w
     ∧ store (ManagerCjs.handleSetFiltersInUrl p None scroll router data w) = store w)
  ∧ ManagerCjs.handleSetFiltersInUrl p (Some querySetter) scroll router data w
    = ManagerCjs.handleSetFiltersInUrl p (Some querySetter) scroll' router data w
  ∧ (ManagerCjs.handleSetFiltersInUrl p (Some querySetter) scroll router data w = w
     ∨ ∃ transformed,
         transformed = match queryTransformer p with
                       | Some t => Js.map t data
                       | None => data
                       end
         ∧ location (ManagerCjs.handleSetFiltersInUrl p (Some querySetter) scroll router data w)
           = location (querySetter transformed w)
         ∧ cache (ManagerCjs.handleSetFiltersInUrl p (Some querySetter) scroll router data w)
           = cache (querySetter transformed w)
         ∧ trace (ManagerCjs.handleSetFiltersInUrl p (Some querySetter) scroll router data w)
           = trace (querySetter transformed w) ++ [EvQuerySetter transformed]).
Proof.
  unfold ManagerCjs.handleSetFiltersInUrl, Manager.handleSetFiltersInUrl.
  destruct (negb (isReady router) || Js.not data); simpl.
  - repeat split; by left.
  - repeat split. right. eexists. by repeat split.
Qed.

End CjsFacts.

(** ** filters_manager.service.ts: write, reflection and reload *)

Section ServiceFacts.
Context {Val Err Store : Type} `{Countable Val}.
Context (fieldsOf : Val → Obj).
Import QueryString ReactQuery Next Runtime Api.
Local Abbreviation World := (World Val Err Store).
Local Abbreviation Props := (Props string Val Err Store).
Local Abbreviation cfg := Service.queryStringConfig.

(** The URL [handleSetFiltersInUrl] of filters_manager.service.ts navigates
    to with the filters [v]. *)
Lemma Service_handleSetFiltersInUrl_replace (p : Props) (router : Router) (v : Val)
    (w : World) :
  isReady router = true →
  let V := fieldsOf (match queryTransformer p with Some t => t v | None => v end) in
  let href := url (parseUrl (asPath router) defaultOptions)
              +:+ (if bool_decide (stringify V cfg ≠ "") then "?" +:+ stringify V cfg
                   else "") in
  Service.handleSetFiltersInUrl fieldsOf p router (Defined v) w
  = replace (UrlString href) (Some (UrlString href)) (Some false) w.
Proof.
  intros Hready V href. unfold Service.handleSetFiltersInUrl. rewrite Hready. simpl.
  unfold href, V. by destruct (queryTransformer p).
Qed.


(** X11: a reflection replaces the query of the URL, it does not add to it:
    from the URL an earlier reflection has navigated to, the procedure does
    what it does from the URL before that reflection. *)
Theorem Service_reflection_replaces_query (p : Props) (router router' : Router)
    (v v' : Val) (w w' : World) (href : string) :
  isReady router = true →
  isReady router' = true →
  location (Service.handleSetFiltersInUrl fieldsOf p router (Defined v) w) = UrlString href →
  asPath router' = href →
  Service.handleSetFiltersInUrl fieldsOf p router' (Defined v') w'
  = Service.handleSetFiltersInUrl fieldsOf p router (Defined v') w'.
Proof.
  intros Hready Hready' Hloc Hpath.
  rewrite (Service_handleSetFiltersInUrl_replace p router v w Hready) in Hloc.
  cbn [replace location] in Hloc. injection Hloc as Hhref.
  rewrite (Service_handleSetFiltersInUrl_replace p router' v' w' Hready').
  rewrite (Service_handleSetFiltersInUrl_replace p router v' w' Hready).
  rewrite Hpath, <- Hhref.
  by rewrite (proj1 (parseUrl_reflected (asPath router) _)).
Qed.

(** X12: a reload restores the filters from the URL: a hook that starts,
    with the router ready, on the URL a reflection of [v] has navigated to
    is seeded with [queryParser] of the fields of [v] as the codec gives
    them back, and with [initialFilters] when the codec has omitted them
    all. *)
Theorem Service_reload_seed (p : Props) (router router' : Router) (v : Val) (w : World)
    (href : string) :
  let V := fieldsOf (match queryTransformer p with Some t => t v | None => v end) in
  isReady router = true →
  isReady router' = true →
  (∀ k f, V !! k = Some f → stripBrackets k = None) →
  location (Service.handleSetFiltersInUrl fieldsOf p router (Defined v) w) = UrlString href →
  asPath router' = href →
  Service.filtersInitialData p router'
  = if bool_decide (size (echo V) ≠ 0) then Defined (queryParser p (echo V))
    else Defined (initialFilters p).
Proof.
  intros V Hready Hready' Hkeys Hloc Hpath.
  rewrite (Service_handleSetFiltersInUrl_replace p router v w Hready) in Hloc.
  cbn [replace location] in Hloc. fold V in Hloc.
  assert (Hhref : url (parseUrl (asPath router) defaultOptions)
                  +:+ (if bool_decide (stringify V cfg ≠ "") then "?" +:+ stringify V cfg
                       else "") = href) by congruence.
  unfold Service.filtersInitialData. rewrite Hready'. cbn [negb]. cbv zeta.
  rewrite Hpath, <- Hhref.
  rewrite (proj2 (parseUrl_reflected (asPath router) V)).
  by rewrite (parse_stringify V Hkeys).
Qed.

End ServiceFacts.

Section ServiceExamples.
Import QueryString ReactQuery Next Runtime.


Lemma Service_reflection_replaces_query_witness :
  location (Service.handleSetFiltersInUrl id (Sample.servicePropsFor "cart") Sample.routerReflected
              (Defined Sample.page2) Sample.world0)
  = UrlString "/cart?page=2&perPage=50&sortDirection=asc".
Proof.
  rewrite (Service_reflection_replaces_query id (Sample.servicePropsFor "cart")
             Sample.routerReady Sample.routerReflected Sample.taggedFilters Sample.page2
             Sample.world0 Sample.world0
             "/cart?sortDirection=asc&tags[]=new&tags[]=sale").
  - vm_compute. reflexivity.
  - reflexivity.
  - reflexivity.
  - vm_compute. reflexivity.
  - reflexivity.
Defined.

Lemma Service_reload_seed_witness :
  Service.filtersInitialData (Sample.servicePropsFor "cart") Sample.routerReflected
  = Defined (Sample.cartQueryParser
               (<["sortDirection" := One (VStr "asc")]>
                  (<["tags" := Many [VStr "new"; VStr "sale"]]> ∅))).
Proof.
  rewrite (Service_reload_seed id (Sample.servicePropsFor "cart") Sample.routerReady
             Sample.routerReflected Sample.taggedFilters Sample.world0
             "/cart?sortDirection=asc&tags[]=new&tags[]=sale").
  - vm_compute. reflexivity.
  - reflexivity.
  - reflexivity.
  - intros k f Hf. simpl in Hf. unfold Sample.taggedFilters in Hf.
    repeat (apply lookup_insert_Some in Hf as [[<- <-]|[_ Hf]]; [reflexivity|]).
    by rewrite lookup_empty in Hf.
  - vm_compute. reflexivity.
  - reflexivity.
Defined.

End ServiceExamples.

(** ** The provider *)

Section ProviderFacts.
Import Provider.

Lemma renders_snoc (props : list (Nullable nat)) (queryClient : Nullable nat) :
  renders (props ++ [queryClient]) = render (renders props) queryClient.
Proof. unfold renders. by rewrite fold_left_app. Qed.

Lemma provider_spec (queryClient : Nullable nat) (inst : Instance) :
  FiltersManagerContextProvider queryClient inst
  = ({| contextValue := Null; client := (useMemo queryClient inst).1 |},
     (useMemo queryClient inst).2).
Proof.
  unfold FiltersManagerContextProvider. by destruct (useMemo queryClient inst).
Qed.

(** What holds of a provider after any renders: the memo is the one of the
    last render, it holds the caller's client when one was given, and every
    client constructed so far has a serial below the counter. *)
Lemma renders_invariant (props : list (Nullable nat)) :
  (∀ n, Constructed n ∈ (renders props).2 → n < constructed (renders props).1)
  ∧ match last props with
    | None => memo (renders props).1 = None
    | Some deps =>
        ∃ c, memo (renders props).1 = Some (deps, c)
             ∧ last (renders props).2 = Some c
             ∧ ∀ id, deps = Defined id → c = Supplied id
    end.
Proof.
  induction props as [|queryClient props [IHlt IHmemo]] using rev_ind.
  - split; [|done]. intros n Hn. simpl in Hn. by apply elem_of_nil in Hn.
  - rewrite renders_snoc, last_snoc. unfold render. rewrite provider_spec.
    cbn [fst snd client]. unfold useMemo.
    assert (Hcreate :
      (∀ n, Constructed n ∈ (renders props).2 ++ [(createClient queryClient (renders props).1).1] →
            n < constructed (createClient queryClient (renders props).1).2)
      ∧ ∃ c, memo (createClient queryClient (renders props).1).2 = Some (queryClient, c)
             ∧ last ((renders props).2 ++ [(createClient queryClient (renders props).1).1])
               = Some c
             ∧ ∀ id, queryClient = Defined id → c = Supplied id).
    { split.
      - intros n [Hn|Hn%list_elem_of_singleton]%elem_of_app.
        + specialize (IHlt n Hn). destruct queryClient; simpl; lia.
        + destruct queryClient; simpl in *; try injection Hn as ->; try lia; done.
      - eexists. rewrite last_snoc. split; [|split; [reflexivity|]].
        + destruct queryClient; reflexivity.
        + intros id ->. reflexivity. }
    destruct (memo (renders props).1) as [[deps c]|] eqn:Hmemo; [|exact Hcreate].
    destruct (bool_decide (deps = queryClient)) eqn:Hdeps; [|exact Hcreate].
    apply bool_decide_eq_true in Hdeps. subst deps. cbn [fst snd].
    destruct (last props) as [deps'|] eqn:Hlast; [|congruence].
    destruct IHmemo as (c' & Hmemo' & Hlast' & Hsupplied).
    injection Hmemo' as <- <-. split.
    + intros n [Hn|Hn%list_elem_of_singleton]%elem_of_app; [by apply IHlt|].
      apply IHlt. rewrite Hn. by apply last_Some_elem_of.
    + exists c. rewrite last_snoc. by split; [|split; [|intros id Hid; auto]].
Qed.

(** X13: the client of the provider.  After any renders, a render that is
    given a client provides that client; and a render that is given what
    the render before it was given (the same client, or [undefined] again)
    provides the client of the render before, constructs none, and leaves
    the state of the provider as it is. *)
Theorem provider_client (props : list (Nullable nat)) (queryClient : Nullable nat) :
  let rendered := FiltersManagerContextProvider queryClient (renders props).1 in
  (∀ id, queryClient = Defined id → client rendered.1 = Supplied id)
  ∧ (last props = Some queryClient →
     last (renders props).2 = Some (client rendered.1) ∧ rendered.2 = (renders props).1).
Proof.
  intros rendered. unfold rendered. rewrite provider_spec. cbn [fst snd client].
  destruct (renders_invariant props) as [_ Hmemo]. unfold useMemo. split.
  - intros id ->.
    destruct (memo (renders props).1) as [[deps c]|] eqn:Hm; [|done].
    destruct (bool_decide (deps = Defined id)) eqn:Hdeps; [|done].
    apply bool_decide_eq_true in Hdeps. subst deps.
    destruct (last props) as [deps'|]; [|congruence].
    destruct Hmemo as (c' & Hm' & _ & Hsupplied).
    injection Hm' as <- <-. by apply Hsupplied.
  - intros Hlast. rewrite Hlast in Hmemo. destruct Hmemo as (c & -> & Hc & _).
    by rewrite bool_decide_eq_true_2.
Qed.

(** X14: the default client does not survive a change of the prop: a render
    that is given no client, and is the first render or follows one that
    was given something else (a client, or [null] for [undefined]),
    constructs a client that none of the renders before it provided. *)
Theorem provider_constructs_fresh (props : list (Nullable nat))
    (queryClient : Nullable nat) :
  Js.not queryClient = true →
  last props ≠ Some queryClient →
  let rendered := FiltersManagerContextProvider queryClient (renders props).1 in
  client rendered.1 = Constructed (constructed (renders props).1)
  ∧ (client rendered.1 ∉ (renders props).2)
  ∧ constructed rendered.2 = S (constructed (renders props).1).
Proof.
  intros Hnone Hlast rendered. unfold rendered. rewrite provider_spec.
  cbn [fst snd client]. destruct (renders_invariant props) as [Hlt Hmemo].
  assert (Huse : useMemo queryClient (renders props).1
                 = createClient queryClient (renders props).1).
  { unfold useMemo. destruct (memo (renders props).1) as [[deps c]|] eqn:Hm; [|done].
    destruct (bool_decide (deps = queryClient)) eqn:Hdeps; [|done].
    apply bool_decide_eq_true in Hdeps. subst deps.
    destruct (last props) as [deps'|]; [|congruence].
    destruct Hmemo as (c' & Hm' & _). by injection Hm' as <- <-. }
  rewrite Huse.
  assert (Hcreate : createClient queryClient (renders props).1
                    = (Constructed (constructed (renders props).1),
                       {| memo := Some (queryClient,
                                        Constructed (constructed (renders props).1));
                          constructed := S (constructed (renders props).1) |})).
  { by destruct queryClient. }
  rewrite Hcreate. cbn [fst snd constructed]. split; [done|]. split; [|done].
  intros Hin. apply Hlt in Hin. lia.
Qed.

End ProviderFacts.

Section ProviderExamples.
Import Provider.

Lemma provider_client_witness :
  client (FiltersManagerContextProvider (Defined 7%nat)
            (renders [Undefined; Defined 7%nat]).1).1 = Supplied 7
  ∧ last (renders [Undefined; Defined 7%nat]).2 = Some (Supplied 7).
Proof.
  destruct (provider_client [Undefined; Defined 7%nat] (Defined 7%nat)) as [Hgiven Hsame].
  split; [exact (Hgiven 7%nat eq_refl) | exact (proj1 (Hsame eq_refl))].
Defined.

Lemma provider_constructs_fresh_witness :
  client (FiltersManagerContextProvider Undefined
            (renders [Undefined; Defined 7%nat]).1).1 = Constructed 1
  ∧ (renders [Undefined; Defined 7%nat]).2 = [Constructed 0; Supplied 7]
  ∧ (client (FiltersManagerContextProvider Undefined
               (renders [Undefined; Defined 7%nat]).1).1
     ∉ (renders [Undefined; Defined 7%nat]).2).
Proof.
  destruct (provider_constructs_fresh [Undefined; Defined 7%nat] Undefined)
    as (Hclient & Hfresh & _); [reflexivity | discriminate |].
  split; [exact Hclient|]. split; [reflexivity | exact Hfresh].
Defined.

End ProviderExamples.
